(** * log15: levels, context normalisation, loggers and the swappable handler

    A shallow embedding of [logger.go] and [root.go].  Go values of type
    [interface{}] become the inductive [value]; the heap of [*logger] and
    [*swapHandler] objects is an explicit store; the effects of a call
    (records reaching a sink, [time.Sleep], [panic]) are threaded through a
    small state-and-outcome monad. *)

From stdpp Require Import gmap strings list fin_maps.
From Stdlib Require Import ZArith Lia.

Set Warnings "-register-all".
Local Open Scope string_scope.
Local Open Scope list_scope.
Local Open Scope Z_scope.

(** ** Levels (logger.go, lines 10-62) *)

Definition timeKey : string := "t".
Definition lvlKey : string := "lvl".
Definition msgKey : string := "msg".
Definition errorKey : string := "LOG15_ERROR".

(** [type Lvl int]: every integer is a [Lvl]; five of them are named. *)
Definition Lvl : Type := Z.

Definition LvlCrit : Lvl := 0.
Definition LvlError : Lvl := 1.
Definition LvlWarn : Lvl := 2.
Definition LvlInfo : Lvl := 3.
Definition LvlDebug : Lvl := 4.

Definition defined_levels : list Lvl :=
  [LvlCrit; LvlError; LvlWarn; LvlInfo; LvlDebug].

(** What a call comes back with: a normal return, a Go [panic] carrying its
    message, a dereference of a reference that names no object, or a handler
    chain that was not exhausted within the given recursion budget. *)
Inductive outcome (A : Type) : Type :=
| Done (a : A)
| Panicked (msg : string)
| NilDeref
| OutOfFuel.
Arguments Done {A} a.
Arguments Panicked {A} msg.
Arguments NilDeref {A}.
Arguments OutOfFuel {A}.

(** [func (l Lvl) String() string] *)
Definition Lvl_String (l : Lvl) : outcome string :=
  if l =? LvlDebug then Done "dbug"
  else if l =? LvlInfo then Done "info"
  else if l =? LvlWarn then Done "warn"
  else if l =? LvlError then Done "eror"
  else if l =? LvlCrit then Done "crit"
  else Panicked "bad level".

(** [func LvlFromString(lvlString string) (Lvl, error)]; the error is its
    message, [None] is Go's [nil]. *)
Definition LvlFromString (lvlString : string) : Lvl * option string :=
  if String.eqb lvlString "debug" || String.eqb lvlString "dbug" then (LvlDebug, None)
  else if String.eqb lvlString "info" then (LvlInfo, None)
  else if String.eqb lvlString "warn" then (LvlWarn, None)
  else if String.eqb lvlString "error" || String.eqb lvlString "eror" then (LvlError, None)
  else if String.eqb lvlString "crit" then (LvlCrit, None)
  else (LvlDebug, Some ("Unknown level: " +:+ lvlString)).

Definition recognized_names : list string :=
  ["debug"; "dbug"; "info"; "warn"; "error"; "eror"; "crit"].

(** The composite [LvlFromString(l.String())], a panic in [String]
    propagating. *)
Definition parse_toString (l : Lvl) : outcome (Lvl * option string) :=
  match Lvl_String l with
  | Done s => Done (LvlFromString s)
  | Panicked m => Panicked m
  | NilDeref => NilDeref
  | OutOfFuel => OutOfFuel
  end.

(** ** Values, records and contexts (logger.go, lines 64-79 and 244-273) *)

(** The dynamic values a caller can pass as [interface{}]: [nil], strings,
    integers, the [Ctx] map and the [Lazy] wrapper. *)
Inductive value : Type :=
| VNil
| VString (s : string)
| VInt (n : Z)
| VCtx (m : gmap string value)
| VLazy (fn : value).

Record RecordKeyNames : Type := mkKeyNames {
  kn_Time : string;
  kn_Msg : string;
  kn_Lvl : string
}.

(** [type Record struct]; [r_Call] is the frame [stack.Caller] captured, if
    the stack is that deep. *)
Record LogRecord : Type := mkRecord {
  r_Time : Z;
  r_Lvl : Lvl;
  r_Msg : string;
  r_Ctx : list value;
  r_Call : option string;
  r_KeyNames : RecordKeyNames
}.

(** Go leaves the order of [for k, v := range m] open.  A [MapRange] is one
    way the runtime may enumerate every map: each entry once, in some
    order. *)
Record MapRange : Type := mkMapRange {
  range : gmap string value → list (string * value);
  range_perm : ∀ m, range m ≡ₚ map_to_list m
}.

Definition odd_marker : list value :=
  [VNil; VString errorKey;
   VString "Normalized odd number of arguments by adding nil"].

(** Go's builtin [copy(dst, src)]: overwrites the first
    [min (len dst) (len src)] slots of [dst], returns how many. *)
Definition copy (dst src : list value) : list value * nat :=
  let n := Nat.min (length dst) (length src) in
  (take n src ++ drop n dst, n).

Section Contexts.
Variable rt : MapRange.

(** The body of the loop of [toArray]: [arr[i] = k; arr[i+1] = v; i += 2]
    for each entry the runtime yields.  Go panics on an index past the end
    where the list update below does nothing; [arr] is made [len(c)*2]
    long, so the loop never gets there ([toArray_loop_spec]). *)
Fixpoint toArray_loop (kvs : list (string * value)) (i : nat)
    (arr : list value) : list value :=
  match kvs with
  | [] => arr
  | (k, v) :: rest =>
      toArray_loop rest (i + 2)%nat (<[(i + 1)%nat := v]> (<[i := VString k]> arr))
  end.

(** [func (c Ctx) toArray() []interface{}] *)
Definition toArray (c : gmap string value) : list value :=
  toArray_loop (range rt c) 0%nat (replicate (size c * 2)%nat VNil).

(** [func normalize(ctx []interface{}) []interface{}] *)
Definition normalize (ctx : list value) : list value :=
  let ctx :=
    match ctx with
    | [VCtx ctxMap] => toArray ctxMap
    | _ => ctx
    end in
  if negb (length ctx mod 2 =? 0)%nat then ctx ++ odd_marker else ctx.

(** [func newContext(prefix []interface{}, suffix []interface{}) []interface{}] *)
Definition newContext (prefix suffix : list value) : list value :=
  let normalizedSuffix := normalize suffix in
  let newCtx := replicate (length prefix + length normalizedSuffix)%nat VNil in
  let '(newCtx, n) := copy newCtx prefix in
  take n newCtx ++ fst (copy (drop n newCtx) normalizedSuffix).
End Contexts.

(** ** The store, effects and the call monad *)

(** A handler is a concrete sink of some other file of the package (named
    here by a string), or a [*swapHandler] used as a [Handler], or the sink
    that drops everything. *)
Inductive Handler : Type :=
| Sink (name : string)
| Swapper (p : nat)
| Discard.

(** [type logger struct]; [h] is the address of the logger's [swapHandler]. *)
Record logger : Type := mkLogger {
  maxLvl : Lvl;
  ctx : list value;
  h : nat
}.

(** What the outside world sees of a run, oldest first: a record arriving at
    a concrete sink, and a [time.Sleep(d)], [d] a [time.Duration] in
    nanoseconds. *)
Inductive event : Type :=
| Delivered (sink : string) (r : LogRecord)
| Slept (d : Z).

(** [time.Millisecond], in [time.Duration] units. *)
Definition Millisecond : Z := 1000000.

(** The heap of [*logger] objects, the heap of [*swapHandler] cells ([None]
    in a cell: nothing stored yet), the package variable [root], the wall
    clock in nanoseconds and the events so far. *)
Record state : Type := mkState {
  loggers : gmap nat logger;
  swaps : gmap nat (option Handler);
  root : option nat;
  now : Z;
  trace : list event
}.

Definition empty_state (t0 : Z) : state :=
  {| loggers := ∅; swaps := ∅; root := None; now := t0; trace := [] |}.

Definition M (A : Type) : Type := state → outcome A * state.

Definition ret {A} (a : A) : M A := fun σ => (Done a, σ).

Definition bind {A B} (m : M A) (f : A → M B) : M B :=
  fun σ =>
    match m σ with
    | (Done a, σ') => f a σ'
    | (Panicked msg, σ') => (Panicked msg, σ')
    | (NilDeref, σ') => (NilDeref, σ')
    | (OutOfFuel, σ') => (OutOfFuel, σ')
    end.

Notation "'let!' x ':=' m 'in' k" := (bind m (fun x => k))
  (at level 10, x binder, k at level 200, only parsing).

Definition panic {A} (msg : string) : M A := fun σ => (Panicked msg, σ).

Definition deref (l : nat) : M logger :=
  fun σ =>
    match loggers σ !! l with
    | Some lg => (Done lg, σ)
    | None => (NilDeref, σ)
    end.

Definition get_root : M nat :=
  fun σ =>
    match root σ with
    | Some r => (Done r, σ)
    | None => (NilDeref, σ)
    end.

Definition set_root (r : nat) : M unit :=
  fun σ => (Done tt,
            {| loggers := loggers σ; swaps := swaps σ; root := Some r;
               now := now σ; trace := trace σ |}).

(** [&logger{...}]: a new object at an unused address. *)
Definition new_logger (lg : logger) : M nat :=
  fun σ =>
    let l := fresh (dom (loggers σ)) in
    (Done l,
     {| loggers := <[l := lg]> (loggers σ); swaps := swaps σ; root := root σ;
        now := now σ; trace := trace σ |}).

(** [time.Now()] *)
Definition time_Now : M Z := fun σ => (Done (now σ), σ).

(** [time.Sleep(d)]: returns at once when [d <= 0]. *)
Definition time_Sleep (d : Z) : M unit :=
  fun σ => (Done tt,
            {| loggers := loggers σ; swaps := swaps σ; root := root σ;
               now := now σ + Z.max 0 d; trace := trace σ ++ [Slept d] |}).

Definition emit (evs : list event) : M unit :=
  fun σ => (Done tt,
            {| loggers := loggers σ; swaps := swaps σ; root := root σ;
               now := now σ; trace := trace σ ++ evs |}).

(** [stack.Caller(skip)] on a call stack listed innermost frame first. *)
Definition stack_Caller (skip : nat) (stk : list string) : option string :=
  stk !! skip.

(** ** The swappable handler *)

(** Modelled from the spec: the type [swapHandler] and its methods [Log],
    [Swap] and [Get] are in a file of the package that is not among the
    sources; section 4.4 of the specification gives their contract.  [new]
    makes a cell with nothing installed; [Swap] installs; [Get] reads, the
    no-op sink when nothing was installed; [Log] forwards the record to the
    installed handler and silently drops it when there is none.  A handler
    that is itself a [*swapHandler] forwards in turn; [fuel] bounds the
    depth of that chain. *)
Definition new_swapHandler : M nat :=
  fun σ =>
    let p := fresh (dom (swaps σ)) in
    (Done p,
     {| loggers := loggers σ; swaps := <[p := None]> (swaps σ); root := root σ;
        now := now σ; trace := trace σ |}).

(** Modelled from the spec: [swap(newHandler)] of section 4.4. *)
Definition swapHandler_Swap (p : nat) (newHandler : Handler) : M unit :=
  fun σ =>
    match swaps σ !! p with
    | Some _ =>
        (Done tt,
         {| loggers := loggers σ; swaps := <[p := Some newHandler]> (swaps σ);
            root := root σ; now := now σ; trace := trace σ |})
    | None => (NilDeref, σ)
    end.

(** Modelled from the spec: [get()] of section 4.4. *)
Definition swapHandler_Get (p : nat) : M Handler :=
  fun σ =>
    match swaps σ !! p with
    | Some (Some hd) => (Done hd, σ)
    | Some None => (Done Discard, σ)
    | None => (NilDeref, σ)
    end.

(** Modelled from the spec: [log(record)] of section 4.4, as the events a
    record handed to handler [hd] produces in the cell heap [sw]. *)
Fixpoint Handler_Log (fuel : nat) (sw : gmap nat (option Handler))
    (hd : Handler) (r : LogRecord) : outcome (list event) :=
  match hd with
  | Sink name => Done [Delivered name r]
  | Discard => Done []
  | Swapper p =>
      match fuel with
      | O => OutOfFuel
      | S fuel' =>
          match sw !! p with
          | Some (Some hd') => Handler_Log fuel' sw hd' r
          | Some None => Done []
          | None => NilDeref
          end
      end
  end.

(** Modelled from the spec: the method [Log] of [swapHandler], the error it returns
    dropped as every caller in [logger.go] drops it. *)
Definition swapHandler_Log (fuel : nat) (p : nat) (r : LogRecord) : M unit :=
  fun σ =>
    match Handler_Log fuel (swaps σ) (Swapper p) r with
    | Done evs => emit evs σ
    | Panicked msg => (Panicked msg, σ)
    | NilDeref => (NilDeref, σ)
    | OutOfFuel => (OutOfFuel, σ)
    end.

(** ** Loggers (logger.go, lines 110-222) and the package facade (root.go) *)

Definition keyNames : RecordKeyNames :=
  {| kn_Time := timeKey; kn_Msg := msgKey; kn_Lvl := lvlKey |}.

(** [StdoutHandler]: the stream handler on standard output, a concrete sink
    of another file. *)
Definition StdoutHandler : Handler := Sink "stdout".

Section Loggers.
(** The runtime's map iteration, [fmt.Sprint], [fmt.Sprintf], and the
    depth of handler chain a call may walk. *)
Variable rt : MapRange.
Variable Sprint : value → string.
Variable Sprintf : string → list value → string.
Variable fuel : nat.

(** [func (l *logger) write(msg string, lvl Lvl, ctx []interface{})];
    [stk] is the call stack above [write], innermost frame first. *)
Definition logger_write (l : nat) (msg : string) (lvl : Lvl)
    (ctx' : list value) (stk : list string) : M unit :=
  let! lg := deref l in
  if lvl <=? maxLvl lg then
    let! t := time_Now in
    swapHandler_Log fuel (h lg)
      {| r_Time := t;
         r_Lvl := lvl;
         r_Msg := msg;
         r_Ctx := newContext rt (ctx lg) ctx';
         r_Call := stack_Caller 2 ("logger.write" :: stk);
         r_KeyNames := keyNames |}
  else ret tt.

(** [func (l *logger) SetHandler(h Handler)] *)
Definition logger_SetHandler (l : nat) (hd : Handler) : M unit :=
  let! lg := deref l in
  swapHandler_Swap (h lg) hd.

(** [func (l *logger) GetHandler() Handler] *)
Definition logger_GetHandler (l : nat) : M Handler :=
  let! lg := deref l in
  swapHandler_Get (h lg).

(** [func (l *logger) SetLevel(maxLvl Lvl)] *)
Definition logger_SetLevel (l : nat) (maxLvl' : Lvl) : M unit :=
  fun σ =>
    match loggers σ !! l with
    | Some lg =>
        (Done tt,
         {| loggers :=
              <[l := {| maxLvl := maxLvl'; ctx := ctx lg; h := h lg |}]> (loggers σ);
            swaps := swaps σ; root := root σ; now := now σ; trace := trace σ |})
    | None => (NilDeref, σ)
    end.

(** [func (l *logger) New(lvl Lvl, ctx ...interface{}) Logger] *)
Definition logger_New (l : nat) (lvl : Lvl) (ctx' : list value) : M nat :=
  let! lg := deref l in
  let lvl := if lvl =? 0 then maxLvl lg else lvl in
  let! p := new_swapHandler in
  let! child := new_logger {| maxLvl := lvl; ctx := newContext rt (ctx lg) ctx'; h := p |} in
  let! _ := logger_SetHandler child (Swapper (h lg)) in
  ret child.

Definition logger_Debug (l : nat) (msg : value) (ctx' : list value) (stk : list string) : M unit :=
  logger_write l (Sprint msg) LvlDebug ctx' ("logger.Debug" :: stk).

Definition logger_Debugf (l : nat) (format : string) (args : list value) (stk : list string) : M unit :=
  let emptyCtx : list value := [] in
  logger_write l (Sprintf format args) LvlDebug emptyCtx ("logger.Debugf" :: stk).

Definition logger_Info (l : nat) (msg : value) (ctx' : list value) (stk : list string) : M unit :=
  logger_write l (Sprint msg) LvlInfo ctx' ("logger.Info" :: stk).

Definition logger_Infof (l : nat) (format : string) (args : list value) (stk : list string) : M unit :=
  let emptyCtx : list value := [] in
  logger_write l (Sprintf format args) LvlInfo emptyCtx ("logger.Infof" :: stk).

Definition logger_Warn (l : nat) (msg : value) (ctx' : list value) (stk : list string) : M unit :=
  logger_write l (Sprint msg) LvlWarn ctx' ("logger.Warn" :: stk).

Definition logger_Warnf (l : nat) (format : string) (args : list value) (stk : list string) : M unit :=
  let emptyCtx : list value := [] in
  logger_write l (Sprintf format args) LvlWarn emptyCtx ("logger.Warnf" :: stk).

Definition logger_Error (l : nat) (msg : value) (ctx' : list value) (stk : list string) : M unit :=
  logger_write l (Sprint msg) LvlError ctx' ("logger.Error" :: stk).

Definition logger_Errorf (l : nat) (format : string) (args : list value) (stk : list string) : M unit :=
  let emptyCtx : list value := [] in
  logger_write l (Sprintf format args) LvlError emptyCtx ("logger.Errorf" :: stk).

Definition logger_Crit (l : nat) (msg : value) (ctx' : list value) (stk : list string) : M unit :=
  logger_write l (Sprint msg) LvlCrit ctx' ("logger.Crit" :: stk).

Definition logger_Critf (l : nat) (format : string) (args : list value) (stk : list string) : M unit :=
  let emptyCtx : list value := [] in
  logger_write l (Sprintf format args) LvlCrit emptyCtx ("logger.Critf" :: stk).

(** [func (l *logger) Panic(msg interface{}, ctx ...interface{})] *)
Definition logger_Panic (l : nat) (msg : value) (ctx' : list value) (stk : list string) : M unit :=
  let! _ := logger_write l (Sprint msg) LvlCrit ctx' ("logger.Panic" :: stk) in
  let! _ := time_Sleep 10 in
  panic (Sprint msg).

(** [func (l *logger) Panicf(format string, args ...interface{})] *)
Definition logger_Panicf (l : nat) (format : string) (args : list value) (stk : list string) : M unit :=
  let emptyCtx : list value := [] in
  let! _ := logger_write l (Sprintf format args) LvlCrit emptyCtx ("logger.Panicf" :: stk) in
  let! _ := time_Sleep 10 in
  panic (Sprintf format args).

(** [func init()] of root.go, after the two handlers are chosen. *)
Definition init : M unit :=
  let! p := new_swapHandler in
  let! r := new_logger {| maxLvl := LvlDebug; ctx := []; h := p |} in
  let! _ := set_root r in
  logger_SetHandler r StdoutHandler.

(** [func SetLevel(maxLvl Lvl)] *)
Definition SetLevel (maxLvl' : Lvl) : M unit :=
  let! r := get_root in
  logger_SetLevel r maxLvl'.

(** [func Root() Logger] *)
Definition Root : M nat := get_root.

Definition Debug (msg : string) (ctx' : list value) (stk : list string) : M unit :=
  let! r := get_root in logger_write r msg LvlDebug ctx' ("Debug" :: stk).

Definition Debugf (format : string) (args : list value) (stk : list string) : M unit :=
  let emptyCtx : list value := [] in
  let! r := get_root in
  logger_write r (Sprintf format args) LvlDebug emptyCtx ("Debugf" :: stk).

Definition Info (msg : string) (ctx' : list value) (stk : list string) : M unit :=
  let! r := get_root in logger_write r msg LvlInfo ctx' ("Info" :: stk).

Definition Infof (format : string) (args : list value) (stk : list string) : M unit :=
  let emptyCtx : list value := [] in
  let! r := get_root in
  logger_write r (Sprintf format args) LvlInfo emptyCtx ("Infof" :: stk).

Definition Warn (msg : string) (ctx' : list value) (stk : list string) : M unit :=
  let! r := get_root in logger_write r msg LvlWarn ctx' ("Warn" :: stk).

Definition Warnf (format : string) (args : list value) (stk : list string) : M unit :=
  let emptyCtx : list value := [] in
  let! r := get_root in
  logger_write r (Sprintf format args) LvlWarn emptyCtx ("Warnf" :: stk).

Definition Error (msg : string) (ctx' : list value) (stk : list string) : M unit :=
  let! r := get_root in logger_write r msg LvlError ctx' ("Error" :: stk).

Definition Errorf (format : string) (args : list value) (stk : list string) : M unit :=
  let emptyCtx : list value := [] in
  let! r := get_root in
  logger_write r (Sprintf format args) LvlError emptyCtx ("Errorf" :: stk).

Definition Crit (msg : string) (ctx' : list value) (stk : list string) : M unit :=
  let! r := get_root in logger_write r msg LvlCrit ctx' ("Crit" :: stk).

Definition Critf (format : string) (args : list value) (stk : list string) : M unit :=
  let emptyCtx : list value := [] in
  let! r := get_root in
  logger_write r (Sprintf format args) LvlCrit emptyCtx ("Critf" :: stk).

(** [func Panic(msg interface{}, ctx ...interface{})] of root.go *)
Definition Panic (msg : value) (ctx' : list value) (stk : list string) : M unit :=
  let! r := get_root in
  let! _ := logger_write r (Sprint msg) LvlCrit ctx' ("Panic" :: stk) in
  panic (Sprint msg).

(** [func Panicf(format string, args ...interface{})] of root.go *)
Definition Panicf (format : string) (args : list value) (stk : list string) : M unit :=
  let emptyCtx : list value := [] in
  let! r := get_root in
  let! _ := logger_write r (Sprintf format args) LvlCrit emptyCtx ("Panicf" :: stk) in
  panic (Sprintf format args).
End Loggers.

(** ** Reading contexts as pairs *)

(** The key/value pairs of a flat context, a trailing unpaired element
    dropped. *)
Fixpoint pairs_of (l : list value) : list (value * value) :=
  match l with
  | k :: v :: rest => (k, v) :: pairs_of rest
  | _ => []
  end.

(** The flat sequence of a list of map entries. *)
Definition flatten_entries (kvs : list (string * value)) : list value :=
  flat_map (fun kv => [VString kv.1; kv.2]) kvs.

(** The enumeration that follows the map's own listing. *)
Definition listing_range : MapRange :=
  {| range := map_to_list; range_perm := fun m => reflexivity _ |}.

(** ** Client programs *)

(** The record [write] builds for the logger [lg] when the clock shows
    [t]. *)
Definition record_of (rt : MapRange) (lg : logger) (t : Z) (msg : string)
    (lvl : Lvl) (ctx' : list value) (stk : list string) : LogRecord :=
  {| r_Time := t; r_Lvl := lvl; r_Msg := msg;
     r_Ctx := newContext rt (ctx lg) ctx';
     r_Call := stack_Caller 2 ("logger.write" :: stk);
     r_KeyNames := keyNames |}.

(** One call of client code into the package: a method of the [Logger]
    interface on the logger at address [l], or a package-level function. *)
Inductive call : Type :=
| CallNew (l : nat) (lvl : Lvl) (ctx' : list value)
| CallGetHandler (l : nat)
| CallSetHandler (l : nat) (hd : Handler)
| CallSetLevel (l : nat) (lvl : Lvl)
| CallDebug (l : nat) (msg : value) (ctx' : list value)
| CallDebugf (l : nat) (format : string) (args : list value)
| CallInfo (l : nat) (msg : value) (ctx' : list value)
| CallInfof (l : nat) (format : string) (args : list value)
| CallWarn (l : nat) (msg : value) (ctx' : list value)
| CallWarnf (l : nat) (format : string) (args : list value)
| CallError (l : nat) (msg : value) (ctx' : list value)
| CallErrorf (l : nat) (format : string) (args : list value)
| CallCrit (l : nat) (msg : value) (ctx' : list value)
| CallCritf (l : nat) (format : string) (args : list value)
| CallPanic (l : nat) (msg : value) (ctx' : list value)
| CallPanicf (l : nat) (format : string) (args : list value)
| PkgSetLevel (lvl : Lvl)
| PkgDebug (msg : string) (ctx' : list value)
| PkgDebugf (format : string) (args : list value)
| PkgInfo (msg : string) (ctx' : list value)
| PkgInfof (format : string) (args : list value)
| PkgWarn (msg : string) (ctx' : list value)
| PkgWarnf (format : string) (args : list value)
| PkgError (msg : string) (ctx' : list value)
| PkgErrorf (format : string) (args : list value)
| PkgCrit (msg : string) (ctx' : list value)
| PkgCritf (format : string) (args : list value)
| PkgPanic (msg : value) (ctx' : list value)
| PkgPanicf (format : string) (args : list value).

Section Programs.
Variable rt : MapRange.
Variable Sprint : value → string.
Variable Sprintf : string → list value → string.
Variable fuel : nat.

(** The state a call leaves behind, whatever it came back with (a panic
    may be recovered by the client, which then goes on). *)
Definition exec (c : call) (stk : list string) (σ : state) : state :=
  match c with
  | CallNew l lvl ctx' => snd (logger_New rt l lvl ctx' σ)
  | CallGetHandler l => snd (logger_GetHandler l σ)
  | CallSetHandler l hd => snd (logger_SetHandler l hd σ)
  | CallSetLevel l lvl => snd (logger_SetLevel l lvl σ)
  | CallDebug l msg ctx' => snd (logger_Debug rt Sprint fuel l msg ctx' stk σ)
  | CallDebugf l format args => snd (logger_Debugf rt Sprintf fuel l format args stk σ)
  | CallInfo l msg ctx' => snd (logger_Info rt Sprint fuel l msg ctx' stk σ)
  | CallInfof l format args => snd (logger_Infof rt Sprintf fuel l format args stk σ)
  | CallWarn l msg ctx' => snd (logger_Warn rt Sprint fuel l msg ctx' stk σ)
  | CallWarnf l format args => snd (logger_Warnf rt Sprintf fuel l format args stk σ)
  | CallError l msg ctx' => snd (logger_Error rt Sprint fuel l msg ctx' stk σ)
  | CallErrorf l format args => snd (logger_Errorf rt Sprintf fuel l format args stk σ)
  | CallCrit l msg ctx' => snd (logger_Crit rt Sprint fuel l msg ctx' stk σ)
  | CallCritf l format args => snd (logger_Critf rt Sprintf fuel l format args stk σ)
  | CallPanic l msg ctx' => snd (logger_Panic rt Sprint fuel l msg ctx' stk σ)
  | CallPanicf l format args => snd (logger_Panicf rt Sprintf fuel l format args stk σ)
  | PkgSetLevel lvl => snd (SetLevel lvl σ)
  | PkgDebug msg ctx' => snd (Debug rt fuel msg ctx' stk σ)
  | PkgDebugf format args => snd (Debugf rt Sprintf fuel format args stk σ)
  | PkgInfo msg ctx' => snd (Info rt fuel msg ctx' stk σ)
  | PkgInfof format args => snd (Infof rt Sprintf fuel format args stk σ)
  | PkgWarn msg ctx' => snd (Warn rt fuel msg ctx' stk σ)
  | PkgWarnf format args => snd (Warnf rt Sprintf fuel format args stk σ)
  | PkgError msg ctx' => snd (Error rt fuel msg ctx' stk σ)
  | PkgErrorf format args => snd (Errorf rt Sprintf fuel format args stk σ)
  | PkgCrit msg ctx' => snd (Crit rt fuel msg ctx' stk σ)
  | PkgCritf format args => snd (Critf rt Sprintf fuel format args stk σ)
  | PkgPanic msg ctx' => snd (Panic rt Sprint fuel msg ctx' stk σ)
  | PkgPanicf format args => snd (Panicf rt Sprintf fuel format args stk σ)
  end.

Fixpoint run (cs : list call) (stk : list string) (σ : state) : state :=
  match cs with
  | [] => σ
  | c :: cs' => run cs' stk (exec c stk σ)
  end.
End Programs.

(** The store once the package is initialised, the clock at [t0]. *)
Definition boot (t0 : Z) : state := snd (init (empty_state t0)).

Definition even_length (c : list value) : Prop := (length c mod 2 = 0)%nat.

(** Every logger in the store and every record that reached a sink carries
    a context of even length. *)
Definition even_contexts (σ : state) : Prop :=
  (∀ l lg, loggers σ !! l = Some lg → even_length (ctx lg)) ∧
  (∀ s r, Delivered s r ∈ trace σ → even_length (r_Ctx r)).


(** Whatever a logger of the store is asked to write, the record it builds
    carries a context of even length. *)
Definition builds_even_records (rt : MapRange) (σ : state) : Prop :=
  ∀ l lg t msg lvl ctx' stk,
    loggers σ !! l = Some lg →
    even_length (r_Ctx (record_of rt lg t msg lvl ctx' stk)).

(** A call that keeps [even_contexts]. *)
Definition preserves {A} (m : M A) : Prop :=
  ∀ σ, even_contexts σ → even_contexts (snd (m σ)).

(** ** Derivation chains and handler chains *)

(** The client expression [l.New(0, c1...).New(0, c2...)...]: one logger
    derived from the last for each context of [ctxs], each inheriting its
    parent's level; the call returns the last one made. *)
Fixpoint derive_all (rt : MapRange) (ctxs : list (list value)) (l : nat) : M nat :=
  match ctxs with
  | [] => ret l
  | c :: rest =>
      let! child := logger_New rt l 0 c in
      derive_all rt rest child
  end.

(** In the cell heap [sw], the cell [p] forwards to the cell [q] through
    [k] cells that hold a [swapHandler] as their handler. *)
Inductive forwards (sw : gmap nat (option Handler)) : nat → nat → nat → Prop :=
| forwards_here (p : nat) : forwards sw p p 0
| forwards_hop (p p' q k : nat) :
    sw !! p = Some (Some (Swapper p')) →
    forwards sw p' q k →
    forwards sw p q (S k).

(** Whether a [Log] on the handler [hd], allowed [fuel] hops, looks into
    the cell [x] of the cell heap [sw]: the cells it reads are those
    [Handler_Log] reads. *)
Fixpoint Handler_Log_reads (fuel : nat) (sw : gmap nat (option Handler))
    (hd : Handler) (x : nat) : bool :=
  match hd with
  | Sink _ => false
  | Discard => false
  | Swapper p =>
      match fuel with
      | O => false
      | S fuel' =>
          if decide (p = x) then true
          else match sw !! p with
               | Some (Some hd') => Handler_Log_reads fuel' sw hd' x
               | _ => false
               end
      end
  end.

(** A step from [σ] to [σ'] that only adds events, every record among them
    stamped with the call site [f]. *)
Definition logs_from (f : string) (σ σ' : state) : Prop :=
  ∃ evs, trace σ' = trace σ ++ evs ∧
         ∀ s r, Delivered s r ∈ evs → r_Call r = Some f.

Definition always {A} (P : state → state → Prop) (m : M A) : Prop :=
  ∀ σ, P σ (snd (m σ)).

(** * Properties *)

(** ** Levels *)

Lemma LvlFromString_error_iff (s : string) :
  snd (LvlFromString s) ≠ None ↔ s ∉ recognized_names.
Proof.
  unfold LvlFromString, recognized_names.
  repeat match goal with
  | |- context [String.eqb ?a ?b] =>
      destruct (String.eqb_spec a b) as [->|?]
  end; simpl; split; intros H.
  all: try solve [ exfalso; apply H; first [ reflexivity
         | repeat (first [apply list_elem_of_here | apply list_elem_of_further]) ] ].
  - intros Hin.
    repeat match goal with
    | Hin : _ ∈ _ :: _ |- _ => apply elem_of_cons in Hin as [->|Hin]; [done|]
    end.
    by apply elem_of_nil in Hin.
  - done.
Qed.

(** ** Contexts *)

Lemma copy_fits (dst src : list value) :
  (length src ≤ length dst)%nat →
  copy dst src = (src ++ drop (length src) dst, length src).
Proof.
  intros Hle. unfold copy. rewrite Nat.min_r by done.
  by rewrite firstn_all.
Qed.

Lemma odd_plus_three (n : nat) :
  (n mod 2 ≠ 0)%nat → ((n + 3) mod 2 = 0)%nat.
Proof.
  intros Ho.
  pose proof (Nat.mod_upper_bound n 2).
  pose proof (Nat.div_mod_eq n 2).
  replace (n + 3)%nat with (0 + (n / 2 + 2) * 2)%nat by lia.
  by rewrite Nat.Div0.mod_add.
Qed.

Section ContextFacts.
Variable rt : MapRange.

Lemma toArray_loop_spec (kvs : list (string * value)) :
  ∀ (i : nat) (arr : list value),
    (i + 2 * length kvs ≤ length arr)%nat →
    toArray_loop kvs i arr =
      take i arr ++ flatten_entries kvs ++ drop (i + 2 * length kvs) arr.
Proof.
  induction kvs as [|[k v] rest IH]; intros i arr Hlen; simpl in *.
  - rewrite Nat.add_0_r. by rewrite take_drop.
  - rewrite IH by (rewrite !length_insert; lia).
    assert (Hi : (i < length arr)%nat) by lia.
    assert (Hi1 : (i + 1 < length arr)%nat) by lia.
    rewrite drop_insert_lt by lia.
    rewrite drop_insert_lt by lia.
    replace (i + 2 + (length rest + (length rest + 0)))%nat
      with (i + S (length rest + S (length rest + 0)))%nat by lia.
    replace (i + 2)%nat with (S (S i)) by lia.
    replace (i + 1)%nat with (S i) by lia.
    rewrite (take_S_r _ (S i) v)
      by (apply list_lookup_insert_eq; rewrite length_insert; lia).
    rewrite take_insert_ge by lia.
    rewrite (take_S_r _ i (VString k)) by (by apply list_lookup_insert_eq).
    rewrite take_insert_ge by lia.
    by rewrite <- !app_assoc.
Qed.

Lemma range_length (c : gmap string value) :
  length (range rt c) = size c.
Proof. rewrite (range_perm rt c). apply length_map_to_list. Qed.

Lemma toArray_flat (c : gmap string value) :
  toArray rt c = flatten_entries (range rt c).
Proof.
  unfold toArray.
  rewrite toArray_loop_spec
    by (rewrite length_replicate, range_length; lia).
  rewrite take_0. simpl.
  rewrite drop_ge by (rewrite length_replicate, range_length; lia).
  by rewrite app_nil_r.
Qed.

Lemma flatten_entries_length (kvs : list (string * value)) :
  length (flatten_entries kvs) = (2 * length kvs)%nat.
Proof. induction kvs as [|kv rest IH]; simpl in *; [done | lia]. Qed.

Lemma pairs_of_flatten (kvs : list (string * value)) :
  pairs_of (flatten_entries kvs) = (fun kv => (VString kv.1, kv.2)) <$> kvs.
Proof. induction kvs as [|kv rest IH]; simpl; [done | by rewrite IH]. Qed.

Lemma toArray_length (c : gmap string value) :
  length (toArray rt c) = (2 * size c)%nat.
Proof. by rewrite toArray_flat, flatten_entries_length, range_length. Qed.

Lemma normalize_length_even (ctx : list value) :
  (length (normalize rt ctx) mod 2 = 0)%nat.
Proof.
  unfold normalize.
  match goal with
  | |- context [negb (length ?c mod 2 =? 0)%nat] =>
      destruct (Nat.eqb_spec (length c mod 2) 0) as [He|Ho]
  end; cbn [negb]; [done|].
  rewrite length_app. by apply odd_plus_three.
Qed.

Lemma newContext_app (prefix suffix : list value) :
  newContext rt prefix suffix = prefix ++ normalize rt suffix.
Proof.
  unfold newContext.
  rewrite copy_fits by (rewrite length_replicate; lia).
  rewrite take_app_length.
  rewrite drop_app_length.
  rewrite copy_fits by (rewrite length_drop, length_replicate; lia).
  simpl. rewrite drop_ge by (rewrite length_drop, length_replicate; lia).
  by rewrite app_nil_r.
Qed.
End ContextFacts.

(** ** Loggers in the store *)

Lemma Handler_Log_sink (n : nat) (sw : gmap nat (option Handler)) p s r :
  sw !! p = Some (Some (Sink s)) → (0 < n)%nat →
  Handler_Log n sw (Swapper p) r = Done [Delivered s r].
Proof.
  intros Hp Hn. destruct n as [|n]; [lia|]. simpl. rewrite Hp.
  by destruct n.
Qed.

Lemma Handler_Log_forward (n : nat) (sw : gmap nat (option Handler)) p q s r :
  sw !! p = Some (Some (Swapper q)) →
  sw !! q = Some (Some (Sink s)) → (1 < n)%nat →
  Handler_Log n sw (Swapper p) r = Done [Delivered s r].
Proof.
  intros Hp Hq Hn. destruct n as [|n]; [lia|]. simpl. rewrite Hp.
  apply Handler_Log_sink; [done | lia].
Qed.

Section LoggerFacts.
Variable rt : MapRange.
Variable Sprint : value → string.
Variable Sprintf : string → list value → string.
Variable fuel : nat.

Lemma write_rejected σ l lg msg lvl ctx' stk :
  loggers σ !! l = Some lg → maxLvl lg < lvl →
  logger_write rt fuel l msg lvl ctx' stk σ = (Done tt, σ).
Proof.
  intros Hl Hlt. unfold logger_write, bind, deref. rewrite Hl.
  apply Z.leb_gt in Hlt. by rewrite Hlt.
Qed.

Lemma write_accepted σ l lg msg lvl ctx' stk :
  loggers σ !! l = Some lg → lvl ≤ maxLvl lg →
  logger_write rt fuel l msg lvl ctx' stk σ =
    swapHandler_Log fuel (h lg) (record_of rt lg (now σ) msg lvl ctx' stk) σ.
Proof.
  intros Hl Hle. unfold logger_write, bind, deref. rewrite Hl.
  apply Z.leb_le in Hle. by rewrite Hle.
Qed.

Lemma swapHandler_Log_sink σ p s r :
  swaps σ !! p = Some (Some (Sink s)) → (0 < fuel)%nat →
  swapHandler_Log fuel p r σ = emit [Delivered s r] σ.
Proof.
  intros Hp Hf. unfold swapHandler_Log.
  by rewrite (Handler_Log_sink fuel (swaps σ) p s r Hp Hf).
Qed.

Lemma swapHandler_Log_forward σ p q s r :
  swaps σ !! p = Some (Some (Swapper q)) →
  swaps σ !! q = Some (Some (Sink s)) → (1 < fuel)%nat →
  swapHandler_Log fuel p r σ = emit [Delivered s r] σ.
Proof.
  intros Hp Hq Hf. unfold swapHandler_Log.
  by rewrite (Handler_Log_forward fuel (swaps σ) p q s r Hp Hq Hf).
Qed.

(** Whatever the chain of handlers, the events of one [Log] are
    deliveries of that very record. *)
Lemma Handler_Log_events sw r :
  ∀ (n : nat) (hd : Handler) (evs : list event),
    Handler_Log n sw hd r = Done evs →
    evs = [] ∨ ∃ s, evs = [Delivered s r].
Proof.
  induction n as [|n IH]; intros hd evs; destruct hd as [s|p|]; simpl;
    intros Heq; try discriminate.
  - right. exists s. congruence.
  - left. congruence.
  - right. exists s. congruence.
  - destruct (sw !! p) as [[hd'|]|]; try discriminate.
    + by apply (IH hd').
    + left. congruence.
  - left. congruence.
Qed.

Lemma swapHandler_Log_trace σ p r o σ' :
  swapHandler_Log fuel p r σ = (o, σ') →
  loggers σ' = loggers σ ∧ swaps σ' = swaps σ ∧ root σ' = root σ ∧
  now σ' = now σ ∧
  (trace σ' = trace σ ∨ ∃ s, trace σ' = trace σ ++ [Delivered s r]).
Proof.
  unfold swapHandler_Log, emit.
  destruct (Handler_Log fuel (swaps σ) (Swapper p) r) as [evs| | |] eqn:HL;
    intros [= <- <-]; simpl; repeat split; auto.
  apply Handler_Log_events in HL as [->|[s ->]].
  - left. by rewrite app_nil_r.
  - right. by exists s.
Qed.

Lemma logger_New_spec σ l lg lvl ctx' :
  loggers σ !! l = Some lg →
  let child := fresh (dom (loggers σ)) in
  let p := fresh (dom (swaps σ)) in
  logger_New rt l lvl ctx' σ =
    (Done child,
     {| loggers :=
          <[child := {| maxLvl := if lvl =? 0 then maxLvl lg else lvl;
                        ctx := newContext rt (ctx lg) ctx';
                        h := p |}]> (loggers σ);
        swaps := <[p := Some (Swapper (h lg))]> (<[p := None]> (swaps σ));
        root := root σ; now := now σ; trace := trace σ |}).
Proof.
  intros Hl child p.
  unfold logger_New, bind, deref, new_swapHandler, new_logger,
    logger_SetHandler, swapHandler_Swap, ret; simpl.
  rewrite Hl. simpl. fold child p.
  unfold bind, deref. simpl.
  rewrite lookup_insert_eq. simpl. by rewrite lookup_insert_eq.
Qed.

Lemma fresh_logger_ne σ l lg :
  loggers σ !! l = Some lg → fresh (dom (loggers σ)) ≠ l.
Proof.
  intros Hl Heq.
  apply (is_fresh (dom (loggers σ))). rewrite Heq.
  apply elem_of_dom. by exists lg.
Qed.

Lemma fresh_swap_ne σ p :
  is_Some (swaps σ !! p) → fresh (dom (swaps σ)) ≠ p.
Proof.
  intros Hp Heq.
  apply (is_fresh (dom (swaps σ))). rewrite Heq.
  by apply elem_of_dom.
Qed.
End LoggerFacts.

(** ** Even contexts are an invariant of every run *)

Lemma even_length_app (a b : list value) :
  even_length a → even_length b → even_length (a ++ b).
Proof.
  unfold even_length. intros Ha Hb. rewrite length_app.
  rewrite Nat.Div0.add_mod, Ha, Hb. done.
Qed.

Lemma preserves_apply {A} (m : M A) (σ : state) :
  preserves m → even_contexts σ → even_contexts (snd (m σ)).
Proof. intros Hm. apply Hm. Qed.

Lemma preserves_bind {A B} (m : M A) (f : A → M B) :
  preserves m → (∀ a, preserves (f a)) → preserves (bind m f).
Proof.
  intros Hm Hf σ Hσ. unfold bind.
  specialize (Hm σ Hσ). destruct (m σ) as [[a|msg| |] σ']; simpl in *; auto.
  by apply Hf.
Qed.

Lemma preserves_same_store {A} (m : M A) :
  (∀ σ, loggers (snd (m σ)) = loggers σ ∧
        ∃ d, trace (snd (m σ)) = trace σ ++ match d with
                                            | Some d => [Slept d]
                                            | None => []
                                            end) →
  preserves m.
Proof.
  intros Hm σ [HL HT]. destruct (Hm σ) as [Hl [d Ht]].
  split.
  - intros l lg. rewrite Hl. apply HL.
  - intros s r. rewrite Ht. intros Hin.
    apply elem_of_app in Hin as [Hin|Hin]; [by eapply HT|].
    destruct d; [|by apply elem_of_nil in Hin].
    apply list_elem_of_singleton in Hin. discriminate.
Qed.

Lemma preserves_get_root : preserves get_root.
Proof.
  apply preserves_same_store. intros σ. unfold get_root.
  destruct (root σ); simpl; (split; [done|]); exists None; by rewrite app_nil_r.
Qed.

Lemma preserves_panic {A} msg : preserves (@panic A msg).
Proof.
  apply preserves_same_store. intros σ. simpl.
  split; [done|]. exists None. by rewrite app_nil_r.
Qed.

Lemma preserves_Sleep d : preserves (time_Sleep d).
Proof.
  apply preserves_same_store. intros σ. simpl.
  split; [done|]. by exists (Some d).
Qed.

Lemma preserves_SetHandler l hd : preserves (logger_SetHandler l hd).
Proof.
  apply preserves_same_store. intros σ.
  unfold logger_SetHandler, bind, deref, swapHandler_Swap.
  destruct (loggers σ !! l) as [lg|]; simpl;
    [destruct (swaps σ !! h lg); simpl|];
    (split; [done|]); exists None; by rewrite app_nil_r.
Qed.

Lemma preserves_GetHandler l : preserves (logger_GetHandler l).
Proof.
  apply preserves_same_store. intros σ.
  unfold logger_GetHandler, bind, deref, swapHandler_Get.
  destruct (loggers σ !! l) as [lg|]; simpl;
    [destruct (swaps σ !! h lg) as [[?|]|]; simpl|];
    (split; [done|]); exists None; by rewrite app_nil_r.
Qed.

Lemma preserves_SetLevel l lvl : preserves (logger_SetLevel l lvl).
Proof.
  intros σ [HL HT]. unfold logger_SetLevel.
  destruct (loggers σ !! l) as [lg|] eqn:Hl; simpl; [|done].
  split; [|done]. simpl. intros l' lg'.
  destruct (decide (l = l')) as [<-|Hne].
  - rewrite lookup_insert_eq. intros [= <-]. simpl. by eapply HL.
  - rewrite lookup_insert_ne by done. apply HL.
Qed.

Section Invariant.
Variable rt : MapRange.
Variable Sprint : value → string.
Variable Sprintf : string → list value → string.
Variable fuel : nat.

Lemma newContext_even (prefix suffix : list value) :
  even_length prefix → even_length (newContext rt prefix suffix).
Proof.
  intros Hp. rewrite newContext_app.
  apply even_length_app; [done|]. apply normalize_length_even.
Qed.

Lemma preserves_write l msg lvl ctx' stk :
  preserves (logger_write rt fuel l msg lvl ctx' stk).
Proof.
  intros σ [HL HT].
  destruct (loggers σ !! l) as [lg|] eqn:Hl.
  - destruct (Z.le_gt_cases lvl (maxLvl lg)) as [Hle|Hgt].
    + rewrite (write_accepted rt fuel σ l lg) by done.
      destruct (swapHandler_Log fuel (h lg)
                  (record_of rt lg (now σ) msg lvl ctx' stk) σ)
        as [o σ'] eqn:Hlog.
      apply swapHandler_Log_trace in Hlog as (Hl' & _ & _ & _ & Ht). simpl.
      split.
      * intros l0 lg0. rewrite Hl'. apply HL.
      * intros s r. destruct Ht as [->|[s' ->]]; [apply HT|].
        intros Hin. apply elem_of_app in Hin as [Hin|Hin]; [by eapply HT|].
        apply list_elem_of_singleton in Hin. injection Hin as -> ->. simpl.
        apply newContext_even. by eapply HL.
    + rewrite (write_rejected rt fuel σ l lg) by done. done.
  - unfold logger_write, bind, deref. rewrite Hl. done.
Qed.

Lemma preserves_New l lvl ctx' : preserves (logger_New rt l lvl ctx').
Proof.
  intros σ [HL HT].
  destruct (loggers σ !! l) as [lg|] eqn:Hl.
  - rewrite (logger_New_spec rt σ l lg) by done. simpl.
    split; [|done]. simpl. intros l' lg'.
    destruct (decide (fresh (dom (loggers σ)) = l')) as [<-|Hne].
    + rewrite lookup_insert_eq. intros [= <-]. simpl.
      apply newContext_even. by eapply HL.
    + rewrite lookup_insert_ne by done. apply HL.
  - unfold logger_New, bind, deref. rewrite Hl. done.
Qed.

Lemma preserves_root_write msg lvl ctx' stk :
  preserves (bind get_root (fun r => logger_write rt fuel r msg lvl ctx' stk)).
Proof.
  apply preserves_bind; [apply preserves_get_root|].
  intros r. apply preserves_write.
Qed.

Lemma exec_even_contexts (c : call) (stk : list string) (σ : state) :
  even_contexts σ → even_contexts (exec rt Sprint Sprintf fuel c stk σ).
Proof.
  intros Hσ.
  destruct c; simpl;
    unfold logger_Panic, logger_Panicf, SetLevel, Panic, Panicf,
      logger_Debug, logger_Debugf, logger_Info, logger_Infof, logger_Warn,
      logger_Warnf, logger_Error, logger_Errorf, logger_Crit, logger_Critf,
      Debug, Debugf, Info, Infof, Warn, Warnf, Error, Errorf, Crit, Critf;
    (apply preserves_apply; [|done]);
    repeat first
      [ apply preserves_New | apply preserves_GetHandler
      | apply preserves_SetHandler | apply preserves_SetLevel
      | apply preserves_write | apply preserves_get_root
      | apply preserves_Sleep | apply preserves_panic
      | apply preserves_bind | intro ].
Qed.

Lemma run_even_contexts (cs : list call) (stk : list string) :
  ∀ σ, even_contexts σ → even_contexts (run rt Sprint Sprintf fuel cs stk σ).
Proof.
  induction cs as [|c cs IH]; intros σ Hσ; simpl; [done|].
  apply IH. by apply exec_even_contexts.
Qed.
End Invariant.

Lemma boot_eq (t0 : Z) :
  boot t0 =
    {| loggers := {[ 0%nat := {| maxLvl := LvlDebug; ctx := []; h := 0%nat |} ]};
       swaps := {[ 0%nat := Some StdoutHandler ]};
       root := Some 0%nat; now := t0; trace := [] |}.
Proof. vm_compute. reflexivity. Qed.

Lemma boot_even_contexts (t0 : Z) : even_contexts (boot t0).
Proof.
  rewrite boot_eq. split; simpl.
  - intros l lg Hl. apply lookup_singleton_Some in Hl as [_ <-]. done.
  - intros s r Hin. by apply elem_of_nil in Hin.
Qed.

(** ** The claims *)

(** C8. For each of the five levels, parsing the name [String] gives
    back that level and no error; the long names ["error"] and
    ["debug"] parse to [LvlError] and [LvlDebug]; and [LvlFromString]
    returns an error exactly for the strings outside the seven recognised
    names. *)
Theorem C8_level_names_round_trip :
  Forall (fun L => parse_toString L = Done (L, None)) defined_levels ∧
  (Lvl_String <$> defined_levels) =
    [Done "crit"; Done "eror"; Done "warn"; Done "info"; Done "dbug"] ∧
  LvlFromString "error" = (LvlError, None) ∧
  LvlFromString "debug" = (LvlDebug, None) ∧
  (∀ s, snd (LvlFromString s) ≠ None ↔ s ∉ recognized_names).
Proof.
  split; [repeat constructor|].
  split; [reflexivity|].
  split; [reflexivity|].
  split; [reflexivity|].
  apply LvlFromString_error_iff.
Qed.

(** C5. An input of odd length [2n+1] that is not a single [Ctx] argument
    normalises to a sequence of length [2n+4]: the input itself followed by
    [nil], the key [errorKey] and the diagnostic string. *)
Theorem C5_normalize_odd_appends_marker (rt : MapRange) (ctx0 : list value) (n : nat) :
  length ctx0 = (2 * n + 1)%nat →
  (∀ m, ctx0 ≠ [VCtx m]) →
  length (normalize rt ctx0) = (2 * n + 4)%nat ∧
  take (2 * n + 1) (normalize rt ctx0) = ctx0 ∧
  drop (2 * n + 1) (normalize rt ctx0) =
    [VNil; VString "LOG15_ERROR";
     VString "Normalized odd number of arguments by adding nil"].
Proof.
  intros Hlen Hmap.
  assert (Hn : normalize rt ctx0 = ctx0 ++ odd_marker).
  { unfold normalize.
    assert (Hsame : match ctx0 with
                    | [VCtx ctxMap] => toArray rt ctxMap
                    | _ => ctx0
                    end = ctx0).
    { destruct ctx0 as [|[| | |m|] [|]]; try done. by destruct (Hmap m). }
    rewrite Hsame, Hlen.
    replace (2 * n + 1)%nat with (1 + n * 2)%nat by lia.
    by rewrite Nat.Div0.mod_add. }
  rewrite Hn, <- Hlen. split; [|split].
  - rewrite length_app. simpl. lia.
  - apply take_app_length.
  - apply drop_app_length.
Qed.

Lemma C5_normalize_odd_appends_marker_witness :
  length (normalize listing_range [VString "user"]) = 4%nat ∧
  take 1 (normalize listing_range [VString "user"]) = [VString "user"] ∧
  drop 1 (normalize listing_range [VString "user"]) =
    [VNil; VString "LOG15_ERROR";
     VString "Normalized odd number of arguments by adding nil"].
Proof.
  apply (C5_normalize_odd_appends_marker listing_range [VString "user"] 0).
  - reflexivity.
  - intros m. discriminate.
Defined.

(** C6. A single [Ctx] argument with [k] entries normalises to a flat
    sequence of length [2k] whose consecutive pairs are exactly the entries
    of the map, in the order the runtime happened to enumerate them. *)
Theorem C6_normalize_single_Ctx (rt : MapRange) (c : gmap string value) :
  length (normalize rt [VCtx c]) = (2 * size c)%nat ∧
  normalize rt [VCtx c] = flatten_entries (range rt c) ∧
  pairs_of (normalize rt [VCtx c]) ≡ₚ
    ((fun kv => (VString kv.1, kv.2)) <$> map_to_list c).
Proof.
  assert (Hn : normalize rt [VCtx c] = flatten_entries (range rt c)).
  { unfold normalize. rewrite toArray_flat, flatten_entries_length.
    replace (2 * length (range rt c))%nat
      with (0 + length (range rt c) * 2)%nat by lia.
    by rewrite Nat.Div0.mod_add. }
  rewrite Hn. split; [|split].
  - by rewrite flatten_entries_length, range_length.
  - done.
  - rewrite pairs_of_flatten. by rewrite (range_perm rt c).
Qed.

(** C9. [normalize] returns a sequence of even length on every input, and
    so, in every store a client can bring about from the initialised
    package by calls to the [Logger] methods and the package functions,
    every logger's context, the context of every record that reached a
    sink and the context of any record a logger would build next have even
    length. *)
Theorem C9_contexts_always_even :
  (∀ (rt : MapRange) (ctx0 : list value), even_length (normalize rt ctx0)) ∧
  (∀ (rt : MapRange) (Sprint : value → string)
     (Sprintf : string → list value → string) (fuel : nat) (t0 : Z)
     (cs : list call) (stk : list string),
     even_contexts (run rt Sprint Sprintf fuel cs stk (boot t0)) ∧
     builds_even_records rt (run rt Sprint Sprintf fuel cs stk (boot t0))).
Proof.
  split.
  - intros rt ctx0. apply normalize_length_even.
  - intros rt Sprint Sprintf fuel t0 cs stk.
    assert (Hinv : even_contexts (run rt Sprint Sprintf fuel cs stk (boot t0)))
      by (apply run_even_contexts, boot_even_contexts).
    split; [done|].
    intros l lg t msg lvl ctx' stk' Hl. simpl.
    apply newContext_even. by eapply (proj1 Hinv).
Qed.



Lemma logger_New_child (rt : MapRange) σ l lg lvl ctx' :
  loggers σ !! l = Some lg →
  ∃ child σ' p,
    logger_New rt l lvl ctx' σ = (Done child, σ') ∧
    child ≠ l ∧ loggers σ !! child = None ∧ swaps σ !! p = None ∧
    loggers σ' =
      <[child := {| maxLvl := if lvl =? 0 then maxLvl lg else lvl;
                    ctx := ctx lg ++ normalize rt ctx'; h := p |}]> (loggers σ) ∧
    swaps σ' = <[p := Some (Swapper (h lg))]> (swaps σ) ∧
    root σ' = root σ ∧ now σ' = now σ ∧ trace σ' = trace σ.
Proof.
  intros Hl. eexists _, _, (fresh (dom (swaps σ))).
  split; [by apply logger_New_spec|]. simpl.
  split; [by eapply fresh_logger_ne|].
  split; [apply not_elem_of_dom, is_fresh|].
  split; [apply not_elem_of_dom, is_fresh|].
  rewrite newContext_app, insert_insert_eq. done.
Qed.



Lemma trace_emit (evs : list event) (σ : state) :
  trace (snd (emit evs σ)) = trace σ ++ evs.
Proof. reflexivity. Qed.

Lemma write_to_sink (rt : MapRange) (fuel : nat) σ l lg s msg lvl ctx' stk :
  loggers σ !! l = Some lg →
  swaps σ !! h lg = Some (Some (Sink s)) → (0 < fuel)%nat →
  lvl ≤ maxLvl lg →
  logger_write rt fuel l msg lvl ctx' stk σ =
    emit [Delivered s (record_of rt lg (now σ) msg lvl ctx' stk)] σ.
Proof.
  intros Hl Hs Hf Hle.
  rewrite (write_accepted rt fuel σ l lg) by done.
  by apply swapHandler_Log_sink.
Qed.

(** C1. A write at level [lvl] on a logger builds a record and hands it to
    the logger's [swapHandler] exactly when [lvl <= maxLvl]: then the call
    is the [Log] of that record on the logger's handler cell, and with a
    sink installed the trace grows by that one delivery; otherwise the call
    returns at once with the store and the trace untouched.  Whatever the
    handlers, a write that changes the trace passed the gate. *)
Theorem C1_write_level_gate (rt : MapRange) (fuel : nat) (σ : state) (l : nat)
    (lg : logger) (msg : string) (lvl : Lvl) (ctx' : list value)
    (stk : list string) :
  loggers σ !! l = Some lg →
  let R := record_of rt lg (now σ) msg lvl ctx' stk in
  let res := logger_write rt fuel l msg lvl ctx' stk σ in
  (lvl ≤ maxLvl lg → res = swapHandler_Log fuel (h lg) R σ) ∧
  (maxLvl lg < lvl → res = (Done tt, σ)) ∧
  (∀ s, swaps σ !! h lg = Some (Some (Sink s)) → (0 < fuel)%nat →
        (lvl ≤ maxLvl lg ↔ trace (snd res) = trace σ ++ [Delivered s R])) ∧
  (trace (snd res) ≠ trace σ → lvl ≤ maxLvl lg).
Proof.
  intros Hl R res. subst R res.
  split; [by apply write_accepted|].
  split; [by apply write_rejected|].
  split.
  - intros s Hs Hf. split.
    + intros Hle. by rewrite (write_to_sink rt fuel σ l lg s).
    + intros Ht. destruct (Z.le_gt_cases lvl (maxLvl lg)) as [|Hgt]; [done|].
      rewrite (write_rejected rt fuel σ l lg) in Ht by done. simpl in Ht.
      apply (f_equal length) in Ht. rewrite length_app in Ht. simpl in Ht. lia.
  - intros Hne. destruct (Z.le_gt_cases lvl (maxLvl lg)) as [|Hgt]; [done|].
    by rewrite (write_rejected rt fuel σ l lg) in Hne.
Qed.

Lemma C1_write_level_gate_witness :
  trace (snd (logger_write listing_range 1 0%nat "started" LvlInfo []
                ["main.main"] (boot 0))) =
    trace (boot 0) ++
      [Delivered "stdout"
         (record_of listing_range {| maxLvl := LvlDebug; ctx := []; h := 0%nat |}
            (now (boot 0)) "started" LvlInfo [] ["main.main"])] ∧
  logger_write listing_range 1 0%nat "started" 5 [] ["main.main"] (boot 0) =
    (Done tt, boot 0).
Proof.
  assert (Hl : loggers (boot 0) !! 0%nat =
                 Some {| maxLvl := LvlDebug; ctx := []; h := 0%nat |})
    by (vm_compute; reflexivity).
  split.
  - apply (C1_write_level_gate listing_range 1 (boot 0) 0%nat _ "started"
             LvlInfo [] ["main.main"] Hl).
    + vm_compute. reflexivity.
    + lia.
    + unfold LvlInfo, LvlDebug. simpl. lia.
  - apply (C1_write_level_gate listing_range 1 (boot 0) 0%nat _ "started"
             5 [] ["main.main"] Hl).
    unfold LvlDebug. simpl. lia.
Defined.

(** C10. On a logger whose [maxLvl] is one of the five named levels a
    write at [LvlCrit] passes the gate; and after [SetLevel] to any of the
    five levels it still does: with a sink installed the record is
    delivered. *)
Theorem C10_crit_passes_every_named_level (rt : MapRange) (fuel : nat)
    (σ : state) (l : nat) (lg : logger) (msg : string) (ctx' : list value)
    (stk : list string) :
  loggers σ !! l = Some lg →
  let R := record_of rt lg (now σ) msg LvlCrit ctx' stk in
  (maxLvl lg ∈ defined_levels →
     logger_write rt fuel l msg LvlCrit ctx' stk σ =
       swapHandler_Log fuel (h lg) R σ) ∧
  (∀ lvl', lvl' ∈ defined_levels →
     ∃ σ1, logger_SetLevel l lvl' σ = (Done tt, σ1) ∧
       logger_write rt fuel l msg LvlCrit ctx' stk σ1 =
         swapHandler_Log fuel (h lg) R σ1 ∧
       (∀ s, swaps σ !! h lg = Some (Some (Sink s)) → (0 < fuel)%nat →
          trace (snd (logger_write rt fuel l msg LvlCrit ctx' stk σ1)) =
            trace σ ++ [Delivered s R])).
Proof.
  intros Hl R. subst R.
  assert (Hmin : ∀ lvl', lvl' ∈ defined_levels → LvlCrit ≤ lvl').
  { intros lvl' Hin. unfold defined_levels in Hin.
    repeat (apply elem_of_cons in Hin as [->|Hin]; [done|]).
    by apply elem_of_nil in Hin. }
  split.
  - intros Hin. apply write_accepted; [done|]. by apply Hmin.
  - intros lvl' Hin. unfold logger_SetLevel. rewrite Hl.
    eexists. split; [reflexivity|].
    set (lg' := {| maxLvl := lvl'; ctx := ctx lg; h := h lg |}).
    set (σ1 := mkState _ _ _ _ _).
    assert (Hl1 : loggers σ1 !! l = Some lg') by apply lookup_insert_eq.
    split.
    + rewrite (write_accepted rt fuel σ1 l lg') by (simpl; auto). done.
    + intros s Hs Hf.
      rewrite (write_to_sink rt fuel σ1 l lg' s) by (simpl; auto). done.
Qed.

Lemma C10_crit_passes_every_named_level_witness :
  ∃ σ1, logger_SetLevel 0%nat LvlCrit (boot 0) = (Done tt, σ1) ∧
    trace (snd (logger_write listing_range 1 0%nat "disk full" LvlCrit []
                  ["main.main"] σ1)) =
      trace (boot 0) ++
        [Delivered "stdout"
           (record_of listing_range {| maxLvl := LvlDebug; ctx := []; h := 0%nat |}
              (now (boot 0)) "disk full" LvlCrit [] ["main.main"])].
Proof.
  assert (Hl : loggers (boot 0) !! 0%nat =
                 Some {| maxLvl := LvlDebug; ctx := []; h := 0%nat |})
    by (vm_compute; reflexivity).
  destruct (proj2 (C10_crit_passes_every_named_level listing_range 1 (boot 0)
                     0%nat _ "disk full" [] ["main.main"] Hl) LvlCrit)
    as (σ1 & HS & _ & Ht).
  - apply list_elem_of_here.
  - exists σ1. split; [exact HS|]. apply (Ht "stdout").
    + vm_compute. reflexivity.
    + lia.
Defined.

Lemma logger_New_level (rt : MapRange) σ l lg lvl ctx' :
  loggers σ !! l = Some lg →
  ∃ child σ' clg,
    logger_New rt l lvl ctx' σ = (Done child, σ') ∧
    loggers σ' !! child = Some clg ∧
    loggers σ' !! l = Some lg ∧
    (lvl = 0 → maxLvl clg = maxLvl lg) ∧
    (lvl ≠ 0 → maxLvl clg = lvl).
Proof.
  intros Hl.
  destruct (logger_New_child rt σ l lg lvl ctx' Hl)
    as (child & σ' & p & HN & Hne & _ & _ & HL & _).
  eexists child, σ', _. split; [done|].
  split; [rewrite HL; apply lookup_insert_eq|].
  split; [by rewrite HL, lookup_insert_ne|]. simpl.
  split; intros Hz.
  - by rewrite Hz.
  - apply Z.eqb_neq in Hz. by rewrite Hz.
Qed.

(** C4, at the input where the code departs from it.  [New] reads the
    level 0 as no level given, and [LvlCrit] is 0: a child derived from the
    root logger (level [LvlDebug]) with [LvlCrit] asked for is created at
    [LvlDebug]. *)
Theorem C4_New_with_LvlCrit_keeps_parent_level (rt : MapRange) (t0 : Z) :
  ∃ child σ' clg,
    maxLvl <$> loggers (boot t0) !! 0%nat = Some LvlDebug ∧
    logger_New rt 0%nat LvlCrit [] (boot t0) = (Done child, σ') ∧
    loggers σ' !! child = Some clg ∧
    maxLvl clg = LvlDebug ∧ maxLvl clg ≠ LvlCrit.
Proof.
  assert (H0 : loggers (boot t0) !! 0%nat =
                 Some {| maxLvl := LvlDebug; ctx := []; h := 0%nat |})
    by (rewrite boot_eq; apply lookup_singleton_eq).
  destruct (logger_New_level rt _ _ _ LvlCrit [] H0)
    as (child & σ' & clg & HN & Hc & _ & Hinh & _).
  exists child, σ', clg.
  split; [by rewrite H0|]. split; [done|]. split; [done|].
  rewrite (Hinh eq_refl). simpl. done.
Qed.

(** C3, at the inputs where the code departs from it.  The package-level
    [Panic] and [Panicf] deliver the one [LvlCrit] record and panic with no
    pause in between; the methods [Panic] and [Panicf] pause for
    [time.Sleep(10)], ten nanoseconds, a millionth of ten milliseconds. *)
Theorem C3_panic_pause (rt : MapRange) (Sprint : value → string)
    (Sprintf : string → list value → string) (msg : value) (format : string)
    (args : list value) (t0 : Z) :
  let R m := {| r_Time := t0; r_Lvl := LvlCrit; r_Msg := m; r_Ctx := [];
                r_Call := Some "main.main"; r_KeyNames := keyNames |} in
  let σ0 := boot t0 in
  (fst (Panic rt Sprint 1 msg [] ["main.main"] σ0) = Panicked (Sprint msg) ∧
   trace (snd (Panic rt Sprint 1 msg [] ["main.main"] σ0)) =
     [Delivered "stdout" (R (Sprint msg))]) ∧
  (fst (Panicf rt Sprintf 1 format args ["main.main"] σ0) =
     Panicked (Sprintf format args) ∧
   trace (snd (Panicf rt Sprintf 1 format args ["main.main"] σ0)) =
     [Delivered "stdout" (R (Sprintf format args))]) ∧
  (fst (logger_Panic rt Sprint 1 0%nat msg [] ["main.main"] σ0) =
     Panicked (Sprint msg) ∧
   trace (snd (logger_Panic rt Sprint 1 0%nat msg [] ["main.main"] σ0)) =
     [Delivered "stdout" (R (Sprint msg)); Slept 10]) ∧
  (fst (logger_Panicf rt Sprintf 1 0%nat format args ["main.main"] σ0) =
     Panicked (Sprintf format args) ∧
   trace (snd (logger_Panicf rt Sprintf 1 0%nat format args ["main.main"] σ0)) =
     [Delivered "stdout" (R (Sprintf format args)); Slept 10]) ∧
  Slept 10 ≠ Slept (10 * Millisecond).
Proof.
  repeat split; try (vm_compute; reflexivity).
  vm_compute. discriminate.
Qed.

Lemma logger_SetHandler_spec σ l lg hd :
  loggers σ !! l = Some lg → is_Some (swaps σ !! h lg) →
  ∃ σ', logger_SetHandler l hd σ = (Done tt, σ') ∧
    loggers σ' = loggers σ ∧ swaps σ' = <[h lg := Some hd]> (swaps σ) ∧
    now σ' = now σ ∧ trace σ' = trace σ.
Proof.
  intros Hl [c Hc]. unfold logger_SetHandler, bind, deref, swapHandler_Swap.
  rewrite Hl, Hc. eexists. split; [reflexivity|]. done.
Qed.

Lemma write_forwarded (rt : MapRange) (fuel : nat) σ l lg q s msg lvl ctx' stk :
  loggers σ !! l = Some lg →
  swaps σ !! h lg = Some (Some (Swapper q)) →
  swaps σ !! q = Some (Some (Sink s)) → (1 < fuel)%nat →
  lvl ≤ maxLvl lg →
  logger_write rt fuel l msg lvl ctx' stk σ =
    emit [Delivered s (record_of rt lg (now σ) msg lvl ctx' stk)] σ.
Proof.
  intros Hl Hp Hq Hf Hle.
  rewrite (write_accepted rt fuel σ l lg) by done.
  by apply (swapHandler_Log_forward fuel σ (h lg) q).
Qed.

Lemma Handler_Log_forwards (sw : gmap nat (option Handler)) p q k s r :
  forwards sw p q k → sw !! q = Some (Some (Sink s)) →
  ∀ n, (k < n)%nat → Handler_Log n sw (Swapper p) r = Done [Delivered s r].
Proof.
  intros Hfw Hq. induction Hfw as [p|p p' q k Hp Hfw IH]; intros n Hn.
  - by apply Handler_Log_sink.
  - destruct n as [|n]; [lia|]. simpl. rewrite Hp.
    apply IH; [done | lia].
Qed.

Lemma forwards_insert_fresh (sw : gmap nat (option Handler)) p q k x c :
  sw !! x = None → forwards sw p q k → forwards (<[x := c]> sw) p q k.
Proof.
  intros Hx Hfw. induction Hfw as [p|p p' q k Hp Hfw IH]; [constructor|].
  econstructor; [|exact IH]. rewrite lookup_insert_ne; [done|].
  intros ->. by rewrite Hx in Hp.
Qed.

Lemma forwards_retarget (sw : gmap nat (option Handler)) p q k s hd :
  forwards sw p q k → sw !! q = Some (Some (Sink s)) →
  forwards (<[q := hd]> sw) p q k.
Proof.
  intros Hfw Hq. induction Hfw as [p|p p' q k Hp Hfw IH]; [constructor|].
  econstructor; [|by apply IH]. rewrite lookup_insert_ne; [done|].
  intros ->. by rewrite Hq in Hp.
Qed.

Lemma write_along_chain (rt : MapRange) (fuel : nat) σ l lg q k s msg lvl ctx' stk :
  loggers σ !! l = Some lg →
  forwards (swaps σ) (h lg) q k →
  swaps σ !! q = Some (Some (Sink s)) → (k < fuel)%nat →
  lvl ≤ maxLvl lg →
  logger_write rt fuel l msg lvl ctx' stk σ =
    emit [Delivered s (record_of rt lg (now σ) msg lvl ctx' stk)] σ.
Proof.
  intros Hl Hfw Hq Hf Hle.
  rewrite (write_accepted rt fuel σ l lg) by done.
  unfold swapHandler_Log.
  by rewrite (Handler_Log_forwards (swaps σ) (h lg) q k s _ Hfw Hq fuel Hf).
Qed.

Lemma Handler_Log_unread (sw : gmap nat (option Handler)) (x : nat)
    (c : option Handler) (r : LogRecord) :
  ∀ (n : nat) (hd : Handler),
    Handler_Log_reads n sw hd x = false →
    Handler_Log n (<[x := c]> sw) hd r = Handler_Log n sw hd r.
Proof.
  induction n as [|n IH]; intros hd Hr; destruct hd as [s|p|]; simpl in *;
    try done.
  destruct (decide (p = x)) as [->|Hne]; [done|].
  rewrite lookup_insert_ne by done.
  destruct (sw !! p) as [[hd'|]|]; try done. by apply IH.
Qed.

Lemma write_same_handlers (rt : MapRange) (n : nat) (τ τ2 : state) (l : nat)
    msg lvl ctx' stk :
  loggers τ2 = loggers τ → now τ2 = now τ → trace τ2 = trace τ →
  (∀ lg r, loggers τ !! l = Some lg →
     Handler_Log n (swaps τ2) (Swapper (h lg)) r =
       Handler_Log n (swaps τ) (Swapper (h lg)) r) →
  fst (logger_write rt n l msg lvl ctx' stk τ2) =
    fst (logger_write rt n l msg lvl ctx' stk τ) ∧
  trace (snd (logger_write rt n l msg lvl ctx' stk τ2)) =
    trace (snd (logger_write rt n l msg lvl ctx' stk τ)).
Proof.
  intros HL Hn Ht HH. unfold logger_write, bind, deref. rewrite HL.
  destruct (loggers τ !! l) as [lg|]; [|done].
  destruct (lvl <=? maxLvl lg); [|done].
  unfold time_Now, swapHandler_Log. rewrite Hn, (HH lg _ eq_refl).
  destruct (Handler_Log n (swaps τ) (Swapper (h lg)) _); simpl; try done.
  by rewrite Ht.
Qed.

(** C2, refuted where it is stated: the root logger writes to ["stdout"],
    a child is derived, and the root's handler is then swapped for the sink
    ["file"].  The child's next record goes to ["file"]; had the root not
    been swapped it would have gone to ["stdout"]. *)
Lemma C2_parent_swap_redirects_child :
  let σ1 := snd (logger_New listing_range 0%nat 0 [] (boot 0)) in
  let σ2 := snd (logger_SetHandler 0%nat (Sink "file") σ1) in
  let child := 1%nat in
  fst (logger_New listing_range 0%nat 0 [] (boot 0)) = Done child ∧
  ¬ (trace (snd (logger_write listing_range 2 child "m" LvlInfo [] ["main.main"] σ2)) =
     trace (snd (logger_write listing_range 2 child "m" LvlInfo [] ["main.main"] σ1))) ∧
  (∃ R,
     trace (snd (logger_write listing_range 2 child "m" LvlInfo [] ["main.main"] σ1)) =
       [Delivered "stdout" R] ∧
     trace (snd (logger_write listing_range 2 child "m" LvlInfo [] ["main.main"] σ2)) =
       [Delivered "file" R]).
Proof.
  split; [vm_compute; reflexivity|].
  split.
  - vm_compute. discriminate.
  - eexists. split; vm_compute; reflexivity.
Qed.

(** C2 as the code has it.  The child made by [New] has a handler cell of
    its own, at a new address, set to forward to the parent's cell.  While
    the child's cell holds that forwarding handler, a record written on the
    child is handed to the parent's cell, whatever is installed there: a
    later swap of the parent's handler redirects the child's writes to the
    new handler.  Once a sink has been set on the child, its writes go to
    that sink whatever the parent is swapped to.  Setting the child's
    handler leaves the parent's writes as they were provided the parent's
    handler chain does not read the child's cell, as it does not right
    after [New] when the parent's chain ends in a sink; when the parent's
    cell has been made to forward to the child's, setting the child's
    handler redirects the parent too. *)
Theorem C2_child_forwards_to_parent_cell (rt : MapRange)
    (σ : state) (parent : nat) (lg : logger) (lvl : Lvl) (ctx0 : list value) :
  loggers σ !! parent = Some lg →
  is_Some (swaps σ !! h lg) →
  ∃ child σ1 clg,
    logger_New rt parent lvl ctx0 σ = (Done child, σ1) ∧
    loggers σ1 !! child = Some clg ∧
    loggers σ1 !! parent = Some lg ∧
    h clg ≠ h lg ∧
    swaps σ !! h clg = None ∧
    swaps σ1 !! h clg = Some (Some (Swapper (h lg))) ∧
    (∀ τ cl n msg lvl' ctx' stk,
       loggers τ !! child = Some cl → h cl = h clg →
       swaps τ !! h clg = Some (Some (Swapper (h lg))) →
       lvl' ≤ maxLvl cl →
       logger_write rt (S n) child msg lvl' ctx' stk τ =
         swapHandler_Log n (h lg) (record_of rt cl (now τ) msg lvl' ctx' stk) τ) ∧
    (∀ τ cl pl s n msg lvl' ctx' stk,
       loggers τ !! child = Some cl → h cl = h clg →
       loggers τ !! parent = Some pl → h pl = h lg →
       swaps τ !! h clg = Some (Some (Swapper (h lg))) →
       is_Some (swaps τ !! h lg) →
       lvl' ≤ maxLvl cl → (1 < n)%nat →
       let τ2 := snd (logger_SetHandler parent (Sink s) τ) in
       trace (snd (logger_write rt n child msg lvl' ctx' stk τ2)) =
         trace τ ++ [Delivered s (record_of rt cl (now τ) msg lvl' ctx' stk)]) ∧
    (∀ τ cl pl s' hd n msg lvl' ctx' stk,
       loggers τ !! child = Some cl → h cl = h clg →
       loggers τ !! parent = Some pl → h pl = h lg →
       is_Some (swaps τ !! h clg) → is_Some (swaps τ !! h lg) →
       lvl' ≤ maxLvl cl → (0 < n)%nat →
       let τ2 := snd (logger_SetHandler child (Sink s') τ) in
       let τ3 := snd (logger_SetHandler parent hd τ2) in
       trace (snd (logger_write rt n child msg lvl' ctx' stk τ3)) =
         trace τ ++ [Delivered s' (record_of rt cl (now τ) msg lvl' ctx' stk)]) ∧
    (∀ τ cl pl hd' n msg lvl' ctx' stk,
       loggers τ !! child = Some cl →
       loggers τ !! parent = Some pl →
       Handler_Log_reads n (swaps τ) (Swapper (h pl)) (h cl) = false →
       let τ2 := snd (logger_SetHandler child hd' τ) in
       fst (logger_write rt n parent msg lvl' ctx' stk τ2) =
         fst (logger_write rt n parent msg lvl' ctx' stk τ) ∧
       trace (snd (logger_write rt n parent msg lvl' ctx' stk τ2)) =
         trace (snd (logger_write rt n parent msg lvl' ctx' stk τ))) ∧
    (∀ q k s hd' n msg lvl' ctx' stk,
       forwards (swaps σ) (h lg) q k →
       swaps σ !! q = Some (Some (Sink s)) →
       (k < n)%nat → lvl' ≤ maxLvl lg →
       let σ2 := snd (logger_SetHandler child hd' σ1) in
       trace (snd (logger_write rt n parent msg lvl' ctx' stk σ2)) =
         trace σ ++ [Delivered s (record_of rt lg (now σ) msg lvl' ctx' stk)]) ∧
    (∀ τ cl pl s' n msg lvl' ctx' stk,
       loggers τ !! child = Some cl →
       loggers τ !! parent = Some pl →
       swaps τ !! h pl = Some (Some (Swapper (h cl))) →
       is_Some (swaps τ !! h cl) →
       lvl' ≤ maxLvl pl → (1 < n)%nat →
       let τ2 := snd (logger_SetHandler child (Sink s') τ) in
       trace (snd (logger_write rt n parent msg lvl' ctx' stk τ2)) =
         trace τ ++ [Delivered s' (record_of rt pl (now τ) msg lvl' ctx' stk)]).
Proof.
  intros Hl Hcell.
  destruct (logger_New_child rt σ parent lg lvl ctx0 Hl)
    as (child & σ1 & p & HN & Hne & _ & Hp & HL & HS & _ & Hnow & Htr).
  set (clg := {| maxLvl := if lvl =? 0 then maxLvl lg else lvl;
                 ctx := ctx lg ++ normalize rt ctx0; h := p |}) in *.
  assert (Hpne : p ≠ h lg).
  { intros ->. rewrite Hp in Hcell. by destruct Hcell. }
  assert (Hc1 : loggers σ1 !! child = Some clg)
    by (rewrite HL; apply lookup_insert_eq).
  assert (Hp1 : loggers σ1 !! parent = Some lg)
    by (by rewrite HL, lookup_insert_ne).
  assert (Hsp1 : swaps σ1 !! p = Some (Some (Swapper (h lg))))
    by (rewrite HS; apply lookup_insert_eq).
  exists child, σ1, clg. simpl.
  split; [done|]. split; [done|]. split; [done|]. split; [done|].
  split; [done|]. split; [done|].
  split; [|split; [|split; [|split; [|split]]]].
  - intros τ cl n msg lvl' ctx' stk Hc Hh Hfw Hle.
    rewrite (write_accepted rt (S n) τ child cl) by done.
    unfold swapHandler_Log. simpl. by rewrite Hh, Hfw.
  - intros τ cl pl s n msg lvl' ctx' stk Hc Hh Hpl Hhp Hfw Hpc Hle Hn.
    destruct (logger_SetHandler_spec τ parent pl (Sink s) Hpl)
      as (τ2 & HE & HL2 & HS2 & Hnow2 & Htr2); [by rewrite Hhp|].
    rewrite HE. simpl.
    rewrite (write_forwarded rt n τ2 child cl (h lg) s); try done.
    + by rewrite trace_emit, Htr2, Hnow2.
    + by rewrite HL2.
    + rewrite HS2, Hhp, Hh. by rewrite lookup_insert_ne.
    + rewrite HS2, Hhp. apply lookup_insert_eq.
  - intros τ cl pl s' hd n msg lvl' ctx' stk Hc Hh Hpl Hhp Hcc Hpc Hle Hn.
    destruct (logger_SetHandler_spec τ child cl (Sink s') Hc)
      as (τ2 & HE & HL2 & HS2 & Hnow2 & Htr2); [by rewrite Hh|].
    rewrite HE. simpl.
    destruct (logger_SetHandler_spec τ2 parent pl hd)
      as (τ3 & HE3 & HL3 & HS3 & Hnow3 & Htr3).
    { by rewrite HL2. }
    { rewrite HS2, Hhp, Hh. by rewrite lookup_insert_ne. }
    rewrite HE3. simpl.
    rewrite (write_to_sink rt n τ3 child cl s'); try done.
    + by rewrite trace_emit, Htr3, Htr2, Hnow3, Hnow2.
    + by rewrite HL3, HL2.
    + rewrite HS3, HS2, Hhp, Hh.
      rewrite lookup_insert_ne by done. apply lookup_insert_eq.
  - intros τ cl pl hd' n msg lvl' ctx' stk Hc Hpl Hread.
    unfold logger_SetHandler, bind, deref, swapHandler_Swap. rewrite Hc.
    destruct (swaps τ !! h cl) as [c|]; simpl; [|done].
    apply write_same_handlers; try done. simpl.
    intros lg0 r Hl0. rewrite Hpl in Hl0. injection Hl0 as <-.
    by apply Handler_Log_unread.
  - intros q k s hd' n msg lvl' ctx' stk Hfw Hq Hk Hle.
    destruct (logger_SetHandler_spec σ1 child clg hd' Hc1)
      as (σ2 & HE & HL2 & HS2 & Hnow2 & Htr2); [simpl; rewrite Hsp1; eauto|].
    rewrite HE. simpl.
    assert (Hqp : p ≠ q) by (intros ->; by rewrite Hp in Hq).
    rewrite (write_along_chain rt n σ2 parent lg q k s); try done.
    + by rewrite trace_emit, Htr2, Htr, Hnow2, Hnow.
    + by rewrite HL2.
    + rewrite HS2, HS. simpl. rewrite insert_insert_eq.
      by apply forwards_insert_fresh.
    + rewrite HS2, HS. simpl. by rewrite !lookup_insert_ne.
  - intros τ cl pl s' n msg lvl' ctx' stk Hc Hpl Hfw Hcc Hle Hn.
    destruct (logger_SetHandler_spec τ child cl (Sink s') Hc Hcc)
      as (τ2 & HE & HL2 & HS2 & Hnow2 & Htr2).
    rewrite HE. simpl.
    destruct (decide (h pl = h cl)) as [Heq|Hneq].
    + rewrite (write_to_sink rt n τ2 parent pl s'); try done.
      * by rewrite trace_emit, Htr2, Hnow2.
      * by rewrite HL2.
      * rewrite HS2, Heq. apply lookup_insert_eq.
      * lia.
    + rewrite (write_forwarded rt n τ2 parent pl (h cl) s'); try done.
      * by rewrite trace_emit, Htr2, Hnow2.
      * by rewrite HL2.
      * rewrite HS2. by rewrite lookup_insert_ne.
      * rewrite HS2. apply lookup_insert_eq.
Qed.

Lemma C2_child_forwards_to_parent_cell_witness :
  ∃ child σ1,
    logger_New listing_range 0%nat 0 [] (boot 0) = (Done child, σ1) ∧
    trace (snd (logger_write listing_range 2 child "m" LvlCrit []
                  ["logger.Crit"; "main.main"]
                  (snd (logger_SetHandler 0%nat (Sink "file") σ1)))) =
      [Delivered "file"
         {| r_Time := 0; r_Lvl := LvlCrit; r_Msg := "m"; r_Ctx := [];
            r_Call := Some "main.main"; r_KeyNames := keyNames |}].
Proof.
  assert (Hl : loggers (boot 0) !! 0%nat =
                 Some {| maxLvl := LvlDebug; ctx := []; h := 0%nat |})
    by (vm_compute; reflexivity).
  assert (Hcell : is_Some (swaps (boot 0) !! 0%nat))
    by (exists (Some StdoutHandler); vm_compute; reflexivity).
  destruct (C2_child_forwards_to_parent_cell listing_range (boot 0) 0%nat _
              0 [] Hl Hcell)
    as (child & σ1 & clg & HN & Hc & Hp & _ & _ & Hfw & _ & HA & _).
  exists child, σ1. split; [exact HN|].
  assert (Hcell1 : is_Some (swaps σ1 !! 0%nat)).
  { vm_compute in HN. injection HN as <- <-.
    exists (Some StdoutHandler). vm_compute. reflexivity. }
  rewrite (HA σ1 clg _ "file" 2%nat "m" LvlCrit [] ["logger.Crit"; "main.main"]
             Hc eq_refl Hp eq_refl Hfw Hcell1).
  - vm_compute in HN. injection HN as <- <-.
    vm_compute in Hc. injection Hc as <-.
    vm_compute. reflexivity.
  - vm_compute in HN. injection HN as <- <-.
    vm_compute in Hc. injection Hc as <-.
    vm_compute. discriminate.
  - lia.
Defined.

(** The forwarding can be turned round with public calls only: the handler
    [GetHandler] returns for a grandchild is the child's own [swapHandler],
    and once that is installed on the root, the sink set on the child is
    where the root's records go. *)
Lemma root_made_to_follow_child :
  let σ1 := snd (logger_New listing_range 0%nat 0 [] (boot 0)) in
  let σ2 := snd (logger_New listing_range 1%nat 0 [] σ1) in
  let σ3 := snd (logger_SetHandler 0%nat (Swapper 1) σ2) in
  let σ4 := snd (logger_SetHandler 1%nat (Sink "B") σ3) in
  fst (logger_New listing_range 0%nat 0 [] (boot 0)) = Done 1%nat ∧
  fst (logger_New listing_range 1%nat 0 [] σ1) = Done 2%nat ∧
  logger_GetHandler 2%nat σ2 = (Done (Swapper 1), σ2) ∧
  ∃ R, trace (snd (logger_write listing_range 2 0%nat "p2" LvlInfo []
                     ["logger.Info"; "main.main"] σ4)) = [Delivered "B" R].
Proof.
  split; [vm_compute; reflexivity|].
  split; [vm_compute; reflexivity|].
  split; [vm_compute; reflexivity|].
  eexists. vm_compute. reflexivity.
Qed.

(** * Further properties of the code *)

(** ** Levels *)

(** X1. [String] returns a name exactly on the five levels 0..4 and panics
    with ["bad level"] on every other integer. *)
Theorem X1_String_panics_outside_named_levels (l : Lvl) :
  (0 ≤ l ≤ 4 ↔ ∃ name, Lvl_String l = Done name) ∧
  (l < 0 ∨ 4 < l ↔ Lvl_String l = Panicked "bad level").
Proof.
  unfold Lvl_String, LvlDebug, LvlInfo, LvlWarn, LvlError, LvlCrit.
  repeat match goal with
  | |- context [?a =? ?b] => destruct (Z.eqb_spec a b) as [->|?]
  end; (split; split; intros H);
  try lia; try done; try (by eexists); try (by destruct H).
Qed.

Lemma LvlFromString_cases (s : string) :
  LvlFromString s = (LvlDebug, Some ("Unknown level: " +:+ s)) ∨
  ∃ L, L ∈ defined_levels ∧ LvlFromString s = (L, None).
Proof.
  unfold LvlFromString.
  repeat match goal with
  | |- context [String.eqb ?a ?b] =>
      destruct (String.eqb_spec a b) as [->|?]
  end; simpl; auto; right; eexists; (split; [|reflexivity]);
  repeat (first [apply list_elem_of_here | apply list_elem_of_further]).
Qed.

(** X2. Whatever string is parsed, recognised or not, the level that comes
    back prints without panic as one of the short names, and that short
    name parses to the same level with no error; an unrecognised string
    comes back as [LvlDebug] with an error that quotes it. *)
Theorem X2_parsed_level_prints_canonically (s : string) :
  (∃ name,
     Lvl_String (fst (LvlFromString s)) = Done name ∧
     name ∈ ["dbug"; "info"; "warn"; "eror"; "crit"] ∧
     LvlFromString name = (fst (LvlFromString s), None)) ∧
  (snd (LvlFromString s) = None ∨
   LvlFromString s = (LvlDebug, Some ("Unknown level: " +:+ s))).
Proof.
  destruct (LvlFromString_cases s) as [->|(L & HL & ->)]; simpl.
  - split; [|by right]. exists "dbug".
    split; [reflexivity|]. split; [apply list_elem_of_here | reflexivity].
  - split; [|by left]. unfold defined_levels in HL.
    repeat (apply elem_of_cons in HL as [->|HL];
            [eexists; split; [reflexivity|]; split; [|reflexivity];
             repeat (first [apply list_elem_of_here | apply list_elem_of_further])|]).
    by apply elem_of_nil in HL.
Qed.

(** ** Contexts *)

Lemma normalize_even_id (rt : MapRange) (ctx0 : list value) :
  even_length ctx0 → normalize rt ctx0 = ctx0.
Proof.
  unfold even_length, normalize. intros He.
  assert (Hsame : match ctx0 with
                  | [VCtx ctxMap] => toArray rt ctxMap
                  | _ => ctx0
                  end = ctx0).
  { destruct ctx0 as [|v [|]]; try done. by destruct v. }
  rewrite Hsame, He. done.
Qed.

(** X3. [normalize] is idempotent: normalising an already normalised
    context changes nothing. *)
Theorem X3_normalize_idempotent (rt : MapRange) (ctx0 : list value) :
  normalize rt (normalize rt ctx0) = normalize rt ctx0.
Proof. apply normalize_even_id, normalize_length_even. Qed.

(** X4. A context of even length, the empty one included, comes out of
    [normalize] and of [newContext] unchanged: nothing is appended and a
    [Ctx] value among several arguments is not expanded. *)
Theorem X4_even_context_unchanged (rt : MapRange) (prefix ctx0 : list value) :
  (length ctx0 mod 2 = 0)%nat →
  normalize rt ctx0 = ctx0 ∧ newContext rt prefix ctx0 = prefix ++ ctx0.
Proof.
  intros He. rewrite newContext_app, normalize_even_id by done. done.
Qed.

Lemma X4_even_context_unchanged_witness :
  normalize listing_range [VString "n"; VCtx ∅] = [VString "n"; VCtx ∅] ∧
  newContext listing_range [VString "a"; VInt 1] [VString "n"; VCtx ∅] =
    [VString "a"; VInt 1] ++ [VString "n"; VCtx ∅].
Proof.
  apply (X4_even_context_unchanged listing_range
           [VString "a"; VInt 1] [VString "n"; VCtx ∅]).
  reflexivity.
Defined.

Lemma normalize_odd_app (rt : MapRange) (ctx0 : list value) :
  (length ctx0 mod 2 ≠ 0)%nat → (∀ m, ctx0 ≠ [VCtx m]) →
  normalize rt ctx0 = ctx0 ++ odd_marker.
Proof.
  intros Ho Hmap. unfold normalize.
  assert (Hsame : match ctx0 with
                  | [VCtx ctxMap] => toArray rt ctxMap
                  | _ => ctx0
                  end = ctx0).
  { destruct ctx0 as [|[| | |m|] [|]]; try done. by destruct (Hmap m). }
  rewrite Hsame. by destruct (Nat.eqb_spec (length ctx0 mod 2) 0).
Qed.

Lemma pairs_of_app_even (a b : list value) :
  even_length a → pairs_of (a ++ b) = pairs_of a ++ pairs_of b.
Proof.
  remember (length a) as n eqn:Hn. revert a Hn.
  induction (lt_wf n) as [n _ IH]. intros a Hn He.
  destruct a as [|k [|v rest]]; [done| |].
  - unfold even_length in He. cbv in He. discriminate.
  - simpl. f_equal.
    apply (IH (length rest)); [simpl in Hn; lia | done |].
    unfold even_length in *.
    assert (Hlen : length (k :: v :: rest) = (length rest + 1 * 2)%nat)
      by (simpl; lia).
    rewrite Hlen in He. by rewrite Nat.Div0.mod_add in He.
Qed.

(** X5. Read as pairs, an argument list with a dangling last key keeps all
    its complete pairs, pairs the dangling key with [nil], and ends with
    the pair of the error key and the diagnostic string. *)
Theorem X5_dangling_key_paired_with_nil (rt : MapRange) (kvs : list value)
    (k : value) :
  (length kvs mod 2 = 0)%nat →
  (∀ m, kvs ++ [k] ≠ [VCtx m]) →
  pairs_of (normalize rt (kvs ++ [k])) =
    pairs_of kvs ++
      [(k, VNil);
       (VString "LOG15_ERROR",
        VString "Normalized odd number of arguments by adding nil")].
Proof.
  intros He Hmap.
  rewrite normalize_odd_app; [|by rewrite length_app, Nat.Div0.add_mod, He|done].
  rewrite <- app_assoc. by rewrite pairs_of_app_even.
Qed.

Lemma X5_dangling_key_paired_with_nil_witness :
  pairs_of (normalize listing_range ([VString "id"; VInt 7] ++ [VString "user"])) =
    pairs_of [VString "id"; VInt 7] ++
      [(VString "user", VNil);
       (VString "LOG15_ERROR",
        VString "Normalized odd number of arguments by adding nil")].
Proof.
  apply (X5_dangling_key_paired_with_nil listing_range
           [VString "id"; VInt 7] (VString "user")).
  - reflexivity.
  - intros m. discriminate.
Defined.

Lemma entry_keys (l : list (string * value)) :
  fst <$> ((fun kv : string * value => (VString kv.1, kv.2)) <$> l) =
    VString <$> (fst <$> l).
Proof.
  induction l as [|kv l IH]; [done|].
  rewrite !fmap_cons, IH. done.
Qed.

(** X6. The array [toArray] makes of a [Ctx] holds the pair of key [k] and
    value [v] exactly when the map binds [k] to [v], and no key twice. *)
Theorem X6_toArray_holds_the_bindings (rt : MapRange) (c : gmap string value) :
  (∀ k v, (VString k, v) ∈ pairs_of (toArray rt c) ↔ c !! k = Some v) ∧
  NoDup (fst <$> pairs_of (toArray rt c)).
Proof.
  rewrite toArray_flat, pairs_of_flatten. split.
  - intros k v. rewrite <- elem_of_map_to_list, <- (range_perm rt c).
    rewrite list_elem_of_fmap. split.
    + intros [[k' v'] [[= -> ->] Hin]]. done.
    + intros Hin. by exists (k, v).
  - assert (Hk : NoDup (fst <$> range rt c)).
    { rewrite (range_perm rt c). apply NoDup_fst_map_to_list. }
    rewrite entry_keys. apply NoDup_fmap_2; [|done]. intros a b [= ->]. done.
Qed.

(** ** Writes *)

(** X7. A write changes nothing in the store but the trace: loggers,
    handler cells, the root variable and the clock stay as they were, and
    the trace gains at most one event, a delivery of a record with the
    level and message of the call. *)
Theorem X7_write_only_extends_trace (rt : MapRange) (fuel : nat) (σ : state)
    (l : nat) (msg : string) (lvl : Lvl) (ctx' : list value) (stk : list string) :
  let σ' := snd (logger_write rt fuel l msg lvl ctx' stk σ) in
  loggers σ' = loggers σ ∧ swaps σ' = swaps σ ∧ root σ' = root σ ∧
  now σ' = now σ ∧
  ∃ evs, trace σ' = trace σ ++ evs ∧ (length evs ≤ 1)%nat ∧
         ∀ e, e ∈ evs → ∃ s r, e = Delivered s r ∧ r_Lvl r = lvl ∧ r_Msg r = msg.
Proof.
  simpl.
  assert (Hnone : ∀ σ0 : state,
            loggers σ0 = loggers σ0 ∧ swaps σ0 = swaps σ0 ∧ root σ0 = root σ0 ∧
            now σ0 = now σ0 ∧
            ∃ evs, trace σ0 = trace σ0 ++ evs ∧ (length evs ≤ 1)%nat ∧
              ∀ e, e ∈ evs →
                   ∃ s r, e = Delivered s r ∧ r_Lvl r = lvl ∧ r_Msg r = msg).
  { intros σ0. repeat split. exists []. rewrite app_nil_r.
    split; [done|]. split; [simpl; lia|]. intros e He.
    by apply elem_of_nil in He. }
  destruct (loggers σ !! l) as [lg|] eqn:Hl.
  - destruct (Z.le_gt_cases lvl (maxLvl lg)) as [Hle|Hgt].
    + rewrite (write_accepted rt fuel σ l lg) by done.
      destruct (swapHandler_Log fuel (h lg)
                  (record_of rt lg (now σ) msg lvl ctx' stk) σ) as [o σ'] eqn:HL.
      apply swapHandler_Log_trace in HL as (H1 & H2 & H3 & H4 & [Ht|[s Ht]]);
        simpl; repeat (split; [done|]).
      * exists []. rewrite app_nil_r. split; [done|]. split; [simpl; lia|].
        intros e He. by apply elem_of_nil in He.
      * eexists. split; [exact Ht|]. split; [simpl; lia|].
        intros e He. apply list_elem_of_singleton in He as ->.
        by eexists _, _.
    + rewrite (write_rejected rt fuel σ l lg) by done. apply Hnone.
  - unfold logger_write, bind, deref. rewrite Hl. apply Hnone.
Qed.

Lemma logs_from_same_trace (f : string) (σ σ' : state) :
  trace σ' = trace σ → logs_from f σ σ'.
Proof.
  intros Ht. exists []. rewrite app_nil_r. split; [done|].
  intros s r Hin. by apply elem_of_nil in Hin.
Qed.

Lemma logs_from_trans (f : string) (σ1 σ2 σ3 : state) :
  logs_from f σ1 σ2 → logs_from f σ2 σ3 → logs_from f σ1 σ3.
Proof.
  intros (e1 & H1 & F1) (e2 & H2 & F2). exists (e1 ++ e2).
  split; [by rewrite H2, H1, app_assoc|].
  intros s r Hin. apply elem_of_app in Hin as [Hin|Hin]; eauto.
Qed.

Lemma always_bind {A B} (f : string) (m : M A) (k : A → M B) :
  always (logs_from f) m → (∀ a, always (logs_from f) (k a)) →
  always (logs_from f) (bind m k).
Proof.
  intros Hm Hk σ. unfold bind. specialize (Hm σ).
  destruct (m σ) as [[a|msg| |] σ']; simpl in *; auto.
  eapply logs_from_trans; [exact Hm | apply Hk].
Qed.

Lemma always_apply {A} (f : string) (m : M A) (σ : state) :
  always (logs_from f) m → logs_from f σ (snd (m σ)).
Proof. intros Hm. apply Hm. Qed.

Lemma always_get_root f : always (logs_from f) get_root.
Proof.
  intros σ. apply logs_from_same_trace. unfold get_root. by destruct (root σ).
Qed.

Lemma always_panic {A} f msg : always (logs_from f) (@panic A msg).
Proof. intros σ. by apply logs_from_same_trace. Qed.

Lemma always_Sleep f d : always (logs_from f) (time_Sleep d).
Proof.
  intros σ. exists [Slept d]. split; [done|].
  intros s r Hin. apply list_elem_of_singleton in Hin. discriminate.
Qed.

Lemma always_SetHandler f l hd : always (logs_from f) (logger_SetHandler l hd).
Proof.
  intros σ. apply logs_from_same_trace.
  unfold logger_SetHandler, bind, deref, swapHandler_Swap.
  destruct (loggers σ !! l) as [lg|]; [|done]. simpl.
  by destruct (swaps σ !! h lg).
Qed.

Lemma always_GetHandler f l : always (logs_from f) (logger_GetHandler l).
Proof.
  intros σ. apply logs_from_same_trace.
  unfold logger_GetHandler, bind, deref, swapHandler_Get.
  destruct (loggers σ !! l) as [lg|]; [|done]. simpl.
  by destruct (swaps σ !! h lg) as [[?|]|].
Qed.

Lemma always_SetLevel f l lvl : always (logs_from f) (logger_SetLevel l lvl).
Proof.
  intros σ. apply logs_from_same_trace. unfold logger_SetLevel.
  by destruct (loggers σ !! l).
Qed.

Lemma always_New (rt : MapRange) f l lvl ctx' :
  always (logs_from f) (logger_New rt l lvl ctx').
Proof.
  intros σ. apply logs_from_same_trace.
  destruct (loggers σ !! l) as [lg|] eqn:Hl.
  - by rewrite (logger_New_spec rt σ l lg).
  - unfold logger_New, bind, deref. by rewrite Hl.
Qed.

Lemma always_write (rt : MapRange) (fuel : nat) f l msg lvl ctx' entry rest :
  always (logs_from f) (logger_write rt fuel l msg lvl ctx' (entry :: f :: rest)).
Proof.
  intros σ.
  destruct (loggers σ !! l) as [lg|] eqn:Hl.
  - destruct (Z.le_gt_cases lvl (maxLvl lg)) as [Hle|Hgt].
    + rewrite (write_accepted rt fuel σ l lg) by done.
      destruct (swapHandler_Log fuel (h lg)
                  (record_of rt lg (now σ) msg lvl ctx' (entry :: f :: rest)) σ)
        as [o σ'] eqn:HL.
      apply swapHandler_Log_trace in HL as (_ & _ & _ & _ & [Ht|[s Ht]]); simpl.
      * by apply logs_from_same_trace.
      * eexists. split; [exact Ht|]. intros s' r Hin.
        apply list_elem_of_singleton in Hin. by injection Hin as -> ->.
    + rewrite (write_rejected rt fuel σ l lg) by done.
      by apply logs_from_same_trace.
  - unfold logger_write, bind, deref. rewrite Hl. by apply logs_from_same_trace.
Qed.

(** X8. Through whichever entry point a client logs (a levelled method, a
    formatted one, [Panic], or a package-level function), every record the
    call delivers carries the client's own frame as its call site: the
    depth [stack.Caller(2)] is right on all paths to [write]. *)
Theorem X8_call_site_is_the_client_frame (rt : MapRange) (Sprint : value → string)
    (Sprintf : string → list value → string) (fuel : nat) (c : call)
    (f : string) (rest : list string) (σ : state) :
  ∃ evs,
    trace (exec rt Sprint Sprintf fuel c (f :: rest) σ) = trace σ ++ evs ∧
    ∀ s r, Delivered s r ∈ evs → r_Call r = Some f.
Proof.
  change (logs_from f σ (exec rt Sprint Sprintf fuel c (f :: rest) σ)).
  destruct c; simpl;
    unfold logger_Panic, logger_Panicf, SetLevel, Panic, Panicf,
      logger_Debug, logger_Debugf, logger_Info, logger_Infof, logger_Warn,
      logger_Warnf, logger_Error, logger_Errorf, logger_Crit, logger_Critf,
      Debug, Debugf, Info, Infof, Warn, Warnf, Error, Errorf, Crit, Critf;
    apply always_apply;
    repeat first
      [ apply always_New | apply always_GetHandler
      | apply always_SetHandler | apply always_SetLevel
      | apply always_write | apply always_get_root
      | apply always_Sleep | apply always_panic
      | apply always_bind | intro ].
Qed.

Lemma newContext_nil_r (rt : MapRange) (prefix : list value) :
  newContext rt prefix [] = prefix.
Proof. rewrite newContext_app. apply app_nil_r. Qed.

Lemma write_to_sink_trace (rt : MapRange) (fuel : nat) σ l lg s msg lvl ctx' stk :
  loggers σ !! l = Some lg →
  swaps σ !! h lg = Some (Some (Sink s)) → (0 < fuel)%nat →
  lvl ≤ maxLvl lg →
  trace (snd (logger_write rt fuel l msg lvl ctx' stk σ)) =
    trace σ ++
      [Delivered s
         {| r_Time := now σ; r_Lvl := lvl; r_Msg := msg;
            r_Ctx := ctx lg ++ normalize rt ctx';
            r_Call := stack_Caller 2 ("logger.write" :: stk);
            r_KeyNames := keyNames |}].
Proof.
  intros Hl Hs Hf Hle.
  rewrite (write_to_sink rt fuel σ l lg s) by done.
  rewrite trace_emit. unfold record_of. by rewrite newContext_app.
Qed.

(** X9. On a logger that filters nothing and has a sink installed, each of
    the five levelled methods delivers one record at its own level with the
    printed message and the logger's context followed by the normalised
    arguments; each formatted variant delivers the formatted message with
    exactly the logger's own context. *)
Theorem X9_levelled_methods_deliver (rt : MapRange) (Sprint : value → string)
    (Sprintf : string → list value → string) (fuel : nat) (σ : state) (l : nat)
    (lg : logger) (s : string) (msg : value) (ctx' : list value)
    (format : string) (args : list value) (f : string) (rest : list string) :
  loggers σ !! l = Some lg →
  swaps σ !! h lg = Some (Some (Sink s)) →
  (0 < fuel)%nat →
  LvlDebug ≤ maxLvl lg →
  let R lvl m c := {| r_Time := now σ; r_Lvl := lvl; r_Msg := m;
                      r_Ctx := ctx lg ++ c; r_Call := Some f;
                      r_KeyNames := keyNames |} in
  let out (m : M unit) := trace (snd (m σ)) in
  let stk := f :: rest in
  (out (logger_Debug rt Sprint fuel l msg ctx' stk) =
     trace σ ++ [Delivered s (R LvlDebug (Sprint msg) (normalize rt ctx'))] ∧
   out (logger_Info rt Sprint fuel l msg ctx' stk) =
     trace σ ++ [Delivered s (R LvlInfo (Sprint msg) (normalize rt ctx'))] ∧
   out (logger_Warn rt Sprint fuel l msg ctx' stk) =
     trace σ ++ [Delivered s (R LvlWarn (Sprint msg) (normalize rt ctx'))] ∧
   out (logger_Error rt Sprint fuel l msg ctx' stk) =
     trace σ ++ [Delivered s (R LvlError (Sprint msg) (normalize rt ctx'))] ∧
   out (logger_Crit rt Sprint fuel l msg ctx' stk) =
     trace σ ++ [Delivered s (R LvlCrit (Sprint msg) (normalize rt ctx'))]) ∧
  (out (logger_Debugf rt Sprintf fuel l format args stk) =
     trace σ ++ [Delivered s (R LvlDebug (Sprintf format args) [])] ∧
   out (logger_Infof rt Sprintf fuel l format args stk) =
     trace σ ++ [Delivered s (R LvlInfo (Sprintf format args) [])] ∧
   out (logger_Warnf rt Sprintf fuel l format args stk) =
     trace σ ++ [Delivered s (R LvlWarn (Sprintf format args) [])] ∧
   out (logger_Errorf rt Sprintf fuel l format args stk) =
     trace σ ++ [Delivered s (R LvlError (Sprintf format args) [])] ∧
   out (logger_Critf rt Sprintf fuel l format args stk) =
     trace σ ++ [Delivered s (R LvlCrit (Sprintf format args) [])]).
Proof.
  intros Hl Hs Hf Hmax R out stk. subst R out stk.
  unfold LvlDebug in Hmax.
  unfold logger_Debug, logger_Info, logger_Warn, logger_Error, logger_Crit,
    logger_Debugf, logger_Infof, logger_Warnf, logger_Errorf, logger_Critf.
  repeat split;
    rewrite (write_to_sink_trace rt fuel σ l lg s)
      by (auto; unfold LvlDebug, LvlInfo, LvlWarn, LvlError, LvlCrit; lia);
    reflexivity.
Qed.

Lemma X9_levelled_methods_deliver_witness :
  trace (snd (logger_Warnf listing_range (fun f _ => f) 1 0%nat "disk at %v"
                [VInt 91] ["main.main"] (boot 5))) =
    trace (boot 5) ++
      [Delivered "stdout"
         {| r_Time := 5; r_Lvl := LvlWarn; r_Msg := "disk at %v";
            r_Ctx := [] ++ []; r_Call := Some "main.main";
            r_KeyNames := keyNames |}].
Proof.
  assert (Hl : loggers (boot 5) !! 0%nat =
                 Some {| maxLvl := LvlDebug; ctx := []; h := 0%nat |})
    by (vm_compute; reflexivity).
  assert (Hs : swaps (boot 5) !! 0%nat = Some (Some (Sink "stdout")))
    by (vm_compute; reflexivity).
  assert (Hf : (0 < 1)%nat) by lia.
  assert (Hmax : LvlDebug ≤ LvlDebug) by lia.
  exact (proj1 (proj2 (proj2 (proj2
           (X9_levelled_methods_deliver listing_range (fun _ => "") (fun f _ => f)
              1 (boot 5) 0%nat _ "stdout" VNil [] "disk at %v" [VInt 91]
              "main.main" [] Hl Hs Hf Hmax))))).
Defined.

(** X10. After [SetLevel(m)] a write on that logger is delivered exactly
    when its level is at most [m], whatever the level was before; writes on
    every other logger come out as they would have without the call. *)
Theorem X10_SetLevel_moves_the_gate (rt : MapRange) (fuel : nat) (σ : state)
    (l : nat) (lg : logger) (m : Lvl) (s : string) (msg : string) (lvl : Lvl)
    (ctx' : list value) (stk : list string) :
  loggers σ !! l = Some lg →
  swaps σ !! h lg = Some (Some (Sink s)) →
  (0 < fuel)%nat →
  ∃ σ1,
    logger_SetLevel l m σ = (Done tt, σ1) ∧
    trace (snd (logger_write rt fuel l msg lvl ctx' stk σ1)) =
      trace σ ++ (if lvl <=? m
                  then [Delivered s (record_of rt lg (now σ) msg lvl ctx' stk)]
                  else []) ∧
    (∀ l', l' ≠ l →
       trace (snd (logger_write rt fuel l' msg lvl ctx' stk σ1)) =
         trace (snd (logger_write rt fuel l' msg lvl ctx' stk σ))).
Proof.
  intros Hl Hs Hf. unfold logger_SetLevel. rewrite Hl.
  eexists. split; [reflexivity|].
  set (lg' := {| maxLvl := m; ctx := ctx lg; h := h lg |}).
  set (σ1 := mkState _ _ _ _ _).
  assert (Hl1 : loggers σ1 !! l = Some lg') by apply lookup_insert_eq.
  split.
  - destruct (Z.leb_spec lvl m) as [Hle|Hgt].
    + by rewrite (write_to_sink rt fuel σ1 l lg' s).
    + rewrite (write_rejected rt fuel σ1 l lg') by done. simpl.
      by rewrite app_nil_r.
  - intros l' Hne. unfold logger_write, bind, deref. subst σ1. simpl.
    rewrite lookup_insert_ne by done.
    destruct (loggers σ !! l') as [lg0|]; [|done].
    destruct (lvl <=? maxLvl lg0); [|done].
    unfold time_Now, swapHandler_Log. simpl.
    by destruct (Handler_Log fuel (swaps σ) (Swapper (h lg0)) _).
Qed.

Lemma X10_SetLevel_moves_the_gate_witness :
  ∃ σ1,
    logger_SetLevel 0%nat LvlWarn (boot 0) = (Done tt, σ1) ∧
    trace (snd (logger_write listing_range 1 0%nat "tick" LvlInfo []
                  ["logger.Info"; "main.main"] σ1)) = trace (boot 0) ++ [] ∧
    trace (snd (logger_write listing_range 1 0%nat "down" LvlError []
                  ["logger.Error"; "main.main"] σ1)) =
      trace (boot 0) ++
        [Delivered "stdout"
           (record_of listing_range {| maxLvl := LvlDebug; ctx := []; h := 0%nat |}
              (now (boot 0)) "down" LvlError [] ["logger.Error"; "main.main"])].
Proof.
  assert (Hl : loggers (boot 0) !! 0%nat =
                 Some {| maxLvl := LvlDebug; ctx := []; h := 0%nat |})
    by (vm_compute; reflexivity).
  assert (Hs : swaps (boot 0) !! 0%nat = Some (Some (Sink "stdout")))
    by (vm_compute; reflexivity).
  assert (Hf : (0 < 1)%nat) by lia.
  destruct (X10_SetLevel_moves_the_gate listing_range 1 (boot 0) 0%nat _ LvlWarn
              "stdout" "tick" LvlInfo [] ["logger.Info"; "main.main"] Hl Hs Hf)
    as (σ1 & HS & Ht & _).
  destruct (X10_SetLevel_moves_the_gate listing_range 1 (boot 0) 0%nat _ LvlWarn
              "stdout" "down" LvlError [] ["logger.Error"; "main.main"] Hl Hs Hf)
    as (σ1' & HS' & Ht' & _).
  exists σ1. split; [exact HS|]. split; [exact Ht|].
  rewrite HS in HS'. injection HS' as <-. exact Ht'.
Defined.

(** X11. [SetLevel] takes any integer.  Set below zero, the logger
    delivers nothing at any level from [LvlCrit] up, and [Panic] then
    panics with its message although no record was written. *)
Theorem X11_negative_level_silences_logger (rt : MapRange)
    (Sprint : value → string) (fuel : nat) (σ : state) (l : nat) (lg : logger)
    (m : Lvl) (msg : value) (ctx' : list value) (stk : list string) :
  loggers σ !! l = Some lg →
  m < 0 →
  ∃ σ1,
    logger_SetLevel l m σ = (Done tt, σ1) ∧
    (∀ text lvl, 0 ≤ lvl →
       logger_write rt fuel l text lvl ctx' stk σ1 = (Done tt, σ1)) ∧
    fst (logger_Panic rt Sprint fuel l msg ctx' stk σ1) = Panicked (Sprint msg) ∧
    trace (snd (logger_Panic rt Sprint fuel l msg ctx' stk σ1)) =
      trace σ ++ [Slept 10].
Proof.
  intros Hl Hm. unfold logger_SetLevel. rewrite Hl.
  eexists. split; [reflexivity|].
  set (lg' := {| maxLvl := m; ctx := ctx lg; h := h lg |}).
  set (σ1 := mkState _ _ _ _ _).
  assert (Hl1 : loggers σ1 !! l = Some lg') by apply lookup_insert_eq.
  assert (Hw : ∀ text lvl stk0, 0 ≤ lvl →
            logger_write rt fuel l text lvl ctx' stk0 σ1 = (Done tt, σ1)).
  { intros text lvl stk0 Hlvl.
    apply (write_rejected rt fuel σ1 l lg'); [done | simpl; lia]. }
  split; [intros; by apply Hw|].
  unfold logger_Panic, bind. rewrite Hw by (unfold LvlCrit; lia). done.
Qed.

Lemma X11_negative_level_silences_logger_witness :
  ∃ σ1,
    logger_SetLevel 0%nat (-1) (boot 0) = (Done tt, σ1) ∧
    logger_write listing_range 1 0%nat "disk full" LvlCrit []
      ["logger.Crit"; "main.main"] σ1 = (Done tt, σ1) ∧
    fst (logger_Panic listing_range (fun _ => "boom") 1 0%nat VNil []
           ["main.main"] σ1) = Panicked "boom".
Proof.
  assert (Hl : loggers (boot 0) !! 0%nat =
                 Some {| maxLvl := LvlDebug; ctx := []; h := 0%nat |})
    by (vm_compute; reflexivity).
  assert (Hm : -1 < 0) by lia.
  destruct (X11_negative_level_silences_logger listing_range (fun _ => "boom") 1
              (boot 0) 0%nat _ (-1) VNil [] ["logger.Crit"; "main.main"] Hl Hm)
    as (σ1 & HS & Hw & _).
  destruct (X11_negative_level_silences_logger listing_range (fun _ => "boom") 1
              (boot 0) 0%nat _ (-1) VNil [] ["main.main"] Hl Hm)
    as (σ1' & HS' & _ & Hp & _).
  exists σ1. split; [exact HS|]. split.
  - apply Hw. unfold LvlCrit. lia.
  - rewrite HS in HS'. injection HS' as <-. exact Hp.
Defined.

(** ** Derivation *)

(** X12. [New] on an existing logger always returns: it makes one logger
    at an address not in use, leaves every other logger and every existing
    handler cell as it was, and logs nothing.  On a reference to no logger
    it fails with the store untouched. *)
Theorem X12_New_only_allocates (rt : MapRange) (σ : state) (l : nat)
    (lvl : Lvl) (ctx' : list value) :
  match loggers σ !! l with
  | Some lg =>
      ∃ child σ',
        logger_New rt l lvl ctx' σ = (Done child, σ') ∧
        loggers σ !! child = None ∧
        is_Some (loggers σ' !! child) ∧
        (∀ l', l' ≠ child → loggers σ' !! l' = loggers σ !! l') ∧
        (∀ q, is_Some (swaps σ !! q) → swaps σ' !! q = swaps σ !! q) ∧
        root σ' = root σ ∧ now σ' = now σ ∧ trace σ' = trace σ
  | None => logger_New rt l lvl ctx' σ = (NilDeref, σ)
  end.
Proof.
  destruct (loggers σ !! l) as [lg|] eqn:Hl.
  - destruct (logger_New_child rt σ l lg lvl ctx' Hl)
      as (child & σ' & p & HN & _ & Hfresh & Hp & HL & HS & Hr & Hn & Ht).
    exists child, σ'. split; [done|]. split; [done|].
    split; [rewrite HL, lookup_insert_eq; eauto|].
    split; [intros l' Hne; by rewrite HL, lookup_insert_ne|].
    split; [|done].
    intros q Hq. rewrite HS. apply lookup_insert_ne.
    intros ->. rewrite Hp in Hq. by destruct Hq.
  - unfold logger_New, bind, deref. by rewrite Hl.
Qed.

(** X13. Levels are copied, not shared: after [New], [SetLevel] on the
    parent leaves the child's level alone and [SetLevel] on the child
    leaves the parent's; a logger derived with level 0 after the parent's
    [SetLevel(m)] starts at [m]. *)
Theorem X13_levels_are_independent (rt : MapRange) (σ : state) (l : nat)
    (lg : logger) (lvl : Lvl) (ctx' : list value) :
  loggers σ !! l = Some lg →
  (∃ child σ1 clg,
     logger_New rt l lvl ctx' σ = (Done child, σ1) ∧
     loggers σ1 !! child = Some clg ∧
     ∀ m,
       (loggers (snd (logger_SetLevel l m σ1)) !! child = Some clg ∧
        maxLvl <$> loggers (snd (logger_SetLevel l m σ1)) !! l = Some m) ∧
       (loggers (snd (logger_SetLevel child m σ1)) !! l = Some lg ∧
        maxLvl <$> loggers (snd (logger_SetLevel child m σ1)) !! child = Some m)) ∧
  (∀ m, ∃ child σ2 clg,
     logger_New rt l 0 ctx' (snd (logger_SetLevel l m σ)) = (Done child, σ2) ∧
     loggers σ2 !! child = Some clg ∧ maxLvl clg = m).
Proof.
  intros Hl. split.
  - destruct (logger_New_child rt σ l lg lvl ctx' Hl)
      as (child & σ1 & p & HN & Hne & _ & _ & HL & _).
    eexists child, σ1, _. split; [done|].
    assert (Hc : loggers σ1 !! child = Some
              {| maxLvl := if lvl =? 0 then maxLvl lg else lvl;
                 ctx := ctx lg ++ normalize rt ctx'; h := p |})
      by (rewrite HL; apply lookup_insert_eq).
    assert (Hp : loggers σ1 !! l = Some lg) by (by rewrite HL, lookup_insert_ne).
    split; [exact Hc|]. intros m. unfold logger_SetLevel.
    rewrite Hp, Hc. simpl.
    rewrite !lookup_insert_eq, !lookup_insert_ne by done. done.
  - intros m. unfold logger_SetLevel. rewrite Hl. simpl.
    set (σ1 := mkState _ _ _ _ _).
    assert (Hl1 : loggers σ1 !! l =
                    Some {| maxLvl := m; ctx := ctx lg; h := h lg |})
      by apply lookup_insert_eq.
    destruct (logger_New_level rt σ1 l _ 0 ctx' Hl1)
      as (child & σ2 & clg & HN & Hc & _ & Hinh & _).
    exists child, σ2, clg. split; [done|]. split; [done|]. by apply Hinh.
Qed.

Lemma X13_levels_are_independent_witness :
  ∃ child σ2 clg,
    logger_New listing_range 0%nat 0 []
      (snd (logger_SetLevel 0%nat LvlWarn (boot 0))) = (Done child, σ2) ∧
    loggers σ2 !! child = Some clg ∧ maxLvl clg = LvlWarn.
Proof.
  refine (proj2 (X13_levels_are_independent listing_range (boot 0) 0%nat
                   {| maxLvl := LvlDebug; ctx := []; h := 0%nat |} 0 [] _) LvlWarn).
  vm_compute. reflexivity.
Defined.

Lemma derive_all_spec (rt : MapRange) (ctxs : list (list value)) :
  ∀ (l : nat) (σ : state) (lg : logger),
    loggers σ !! l = Some lg →
    ∃ d σ' dlg,
      derive_all rt ctxs l σ = (Done d, σ') ∧
      loggers σ' !! d = Some dlg ∧
      ctx dlg = ctx lg ++ concat (normalize rt <$> ctxs) ∧
      maxLvl dlg = maxLvl lg ∧
      (∀ l0 lg0, loggers σ !! l0 = Some lg0 → loggers σ' !! l0 = Some lg0) ∧
      root σ' = root σ ∧ now σ' = now σ ∧ trace σ' = trace σ ∧
      (∀ q k, forwards (swaps σ) (h lg) q k → is_Some (swaps σ !! q) →
              forwards (swaps σ') (h dlg) q (k + length ctxs) ∧
              swaps σ' !! q = swaps σ !! q).
Proof.
  induction ctxs as [|c rest IH]; intros l σ lg Hl.
  - exists l, σ, lg. simpl. rewrite app_nil_r.
    repeat (split; [done|]). intros q k Hfw _. by rewrite Nat.add_0_r.
  - destruct (logger_New_child rt σ l lg 0 c Hl)
      as (child & σ1 & p & HN & Hne & Hfresh & Hp & HL & HS & Hr & Hn & Ht).
    simpl in HL.
    set (clg := {| maxLvl := maxLvl lg; ctx := ctx lg ++ normalize rt c; h := p |}) in *.
    assert (Hc : loggers σ1 !! child = Some clg)
      by (rewrite HL; apply lookup_insert_eq).
    destruct (IH child σ1 clg Hc)
      as (d & σ' & dlg & HD & Hd & Hctx & Hlvl & Hkeep & Hr' & Hn' & Ht' & Hch).
    exists d, σ', dlg. simpl. unfold bind. rewrite HN.
    split; [done|]. split; [done|].
    split; [rewrite Hctx; simpl; by rewrite <- app_assoc|].
    split; [done|].
    split.
    { intros l0 lg0 Hl0. apply Hkeep. rewrite HL, lookup_insert_ne; [done|].
      intros <-. by rewrite Hfresh in Hl0. }
    split; [by rewrite Hr'|]. split; [by rewrite Hn'|]. split; [by rewrite Ht'|].
    intros q k Hfw Hq.
    assert (Hqp : p ≠ q) by (intros ->; rewrite Hp in Hq; by destruct Hq).
    destruct (Hch q (S k)) as [Hfw' Heq].
    + econstructor; [rewrite HS; apply lookup_insert_eq|].
      rewrite HS. by apply forwards_insert_fresh.
    + by rewrite HS, lookup_insert_ne.
    + split.
      * by replace (k + S (length rest))%nat with (S k + length rest)%nat by lia.
      * by rewrite Heq, HS, lookup_insert_ne.
Qed.



(** X15. Handlers follow the chain: a logger any number of derivations
    below [l] delivers to the sink installed on [l], and after the handler
    of [l] is swapped it delivers to the new one, as long as the chain is
    shorter than the depth a [Log] call may walk. *)
Theorem X15_descendants_follow_ancestor_handler (rt : MapRange) (fuel : nat)
    (ctxs : list (list value)) (σ : state) (l : nat) (lg : logger) (s : string) :
  loggers σ !! l = Some lg →
  swaps σ !! h lg = Some (Some (Sink s)) →
  (length ctxs < fuel)%nat →
  ∃ d σ' dlg,
    derive_all rt ctxs l σ = (Done d, σ') ∧
    loggers σ' !! d = Some dlg ∧
    (∀ msg lvl ctx' stk, lvl ≤ maxLvl lg →
       trace (snd (logger_write rt fuel d msg lvl ctx' stk σ')) =
         trace σ ++ [Delivered s (record_of rt dlg (now σ) msg lvl ctx' stk)]) ∧
    (∀ s2 msg lvl ctx' stk, lvl ≤ maxLvl lg →
       trace (snd (logger_write rt fuel d msg lvl ctx' stk
                     (snd (logger_SetHandler l (Sink s2) σ')))) =
         trace σ ++ [Delivered s2 (record_of rt dlg (now σ) msg lvl ctx' stk)]).
Proof.
  intros Hl Hs Hf.
  destruct (derive_all_spec rt ctxs l σ lg Hl)
    as (d & σ' & dlg & HD & Hd & _ & Hlvl & Hkeep & _ & Hn & Ht & Hch).
  destruct (Hch (h lg) 0%nat) as [Hfw Hq]; [constructor | by rewrite Hs |].
  rewrite Hs in Hq. simpl in Hfw.
  exists d, σ', dlg. split; [done|]. split; [done|]. split.
  - intros msg lvl ctx' stk Hle.
    rewrite (write_along_chain rt fuel σ' d dlg (h lg) (length ctxs) s);
      try done; [|by rewrite Hlvl].
    by rewrite trace_emit, Ht, Hn.
  - intros s2 msg lvl ctx' stk Hle.
    destruct (logger_SetHandler_spec σ' l lg (Sink s2))
      as (σ2 & HE & HL2 & HS2 & Hn2 & Ht2); [by apply Hkeep | by rewrite Hq |].
    rewrite HE. simpl.
    rewrite (write_along_chain rt fuel σ2 d dlg (h lg) (length ctxs) s2);
      try done.
    + by rewrite trace_emit, Ht2, Ht, Hn2, Hn.
    + by rewrite HL2.
    + rewrite HS2. by eapply forwards_retarget.
    + rewrite HS2. apply lookup_insert_eq.
    + by rewrite Hlvl.
Qed.

Lemma X15_descendants_follow_ancestor_handler_witness :
  ∃ d σ',
    derive_all listing_range [[VString "a"; VInt 1]; []; [VString "k"]]
      0%nat (boot 0) = (Done d, σ') ∧
    ∃ R, trace (snd (logger_write listing_range 4 d "m" LvlInfo []
                       ["logger.Info"; "main.main"]
                       (snd (logger_SetHandler 0%nat (Sink "file") σ')))) =
           trace (boot 0) ++ [Delivered "file" R].
Proof.
  destruct (X15_descendants_follow_ancestor_handler listing_range 4
              [[VString "a"; VInt 1]; []; [VString "k"]] (boot 0) 0%nat
              {| maxLvl := LvlDebug; ctx := []; h := 0%nat |} "stdout")
    as (d & σ' & dlg & HD & _ & _ & Hswap).
  - vm_compute. reflexivity.
  - vm_compute. reflexivity.
  - simpl. lia.
  - exists d, σ'. split; [exact HD|]. eexists.
    apply (Hswap "file" "m" LvlInfo [] ["logger.Info"; "main.main"]).
    unfold LvlInfo, LvlDebug. simpl. lia.
Defined.

Lemma Handler_Log_self_loop (sw : gmap nat (option Handler)) q r :
  sw !! q = Some (Some (Swapper q)) →
  ∀ n, Handler_Log n sw (Swapper q) r = OutOfFuel.
Proof.
  intros Hq n. induction n as [|n IH]; [done|]. simpl. by rewrite Hq.
Qed.

(** X16. A handler cycle can be built through the public methods alone:
    the handler [GetHandler] returns for a fresh child is the parent's own
    [swapHandler], and installing it on the parent makes the parent's cell
    forward to itself.  From then on no write that passes the gate, on the
    parent or on the child, ever completes, however deep the [Log] call is
    allowed to go, and nothing is delivered. *)
Theorem X16_handler_cycle_never_returns (rt : MapRange) (σ : state)
    (parent : nat) (lg : logger) (lvl0 : Lvl) (ctx0 : list value) :
  loggers σ !! parent = Some lg →
  is_Some (swaps σ !! h lg) →
  ∃ child σ1 clg σ2,
    logger_New rt parent lvl0 ctx0 σ = (Done child, σ1) ∧
    loggers σ1 !! child = Some clg ∧
    logger_GetHandler child σ1 = (Done (Swapper (h lg)), σ1) ∧
    logger_SetHandler parent (Swapper (h lg)) σ1 = (Done tt, σ2) ∧
    ∀ fuel msg lvl ctx' stk,
      (lvl ≤ maxLvl lg →
         logger_write rt fuel parent msg lvl ctx' stk σ2 = (OutOfFuel, σ2)) ∧
      (lvl ≤ maxLvl clg →
         logger_write rt fuel child msg lvl ctx' stk σ2 = (OutOfFuel, σ2)).
Proof.
  intros Hl Hcell.
  destruct (logger_New_child rt σ parent lg lvl0 ctx0 Hl)
    as (child & σ1 & p & HN & Hne & _ & Hp & HL & HS & _).
  set (clg := {| maxLvl := if lvl0 =? 0 then maxLvl lg else lvl0;
                 ctx := ctx lg ++ normalize rt ctx0; h := p |}) in *.
  assert (Hpne : p ≠ h lg).
  { intros ->. rewrite Hp in Hcell. by destruct Hcell. }
  assert (Hc1 : loggers σ1 !! child = Some clg)
    by (rewrite HL; apply lookup_insert_eq).
  assert (Hp1 : loggers σ1 !! parent = Some lg)
    by (by rewrite HL, lookup_insert_ne).
  assert (Hsp1 : swaps σ1 !! p = Some (Some (Swapper (h lg))))
    by (rewrite HS; apply lookup_insert_eq).
  destruct (logger_SetHandler_spec σ1 parent lg (Swapper (h lg)) Hp1)
    as (σ2 & HE & HL2 & HS2 & _ & _).
  { by rewrite HS, lookup_insert_ne. }
  exists child, σ1, clg, σ2.
  split; [done|]. split; [done|].
  split.
  { unfold logger_GetHandler, bind, deref, swapHandler_Get.
    rewrite Hc1. simpl. by rewrite Hsp1. }
  split; [done|].
  assert (Hloop : swaps σ2 !! h lg = Some (Some (Swapper (h lg))))
    by (rewrite HS2; apply lookup_insert_eq).
  intros fuel msg lvl ctx' stk. split; intros Hle.
  - rewrite (write_accepted rt fuel σ2 parent lg); [|by rewrite HL2|done].
    unfold swapHandler_Log. by rewrite Handler_Log_self_loop.
  - rewrite (write_accepted rt fuel σ2 child clg); [|by rewrite HL2|done].
    unfold swapHandler_Log. destruct fuel as [|n]; [done|].
    simpl. rewrite HS2, lookup_insert_ne, Hsp1 by done.
    rewrite Handler_Log_self_loop; [done | apply lookup_insert_eq].
Qed.

Lemma X16_handler_cycle_never_returns_witness :
  ∃ child σ1 σ2,
    logger_New listing_range 0%nat 0 [] (boot 0) = (Done child, σ1) ∧
    logger_SetHandler 0%nat (Swapper 0) σ1 = (Done tt, σ2) ∧
    logger_write listing_range 1000 0%nat "m" LvlCrit []
      ["logger.Crit"; "main.main"] σ2 = (OutOfFuel, σ2).
Proof.
  destruct (X16_handler_cycle_never_returns listing_range (boot 0) 0%nat
              {| maxLvl := LvlDebug; ctx := []; h := 0%nat |} 0 [])
    as (child & σ1 & clg & σ2 & HN & _ & _ & HS & Hw).
  - vm_compute. reflexivity.
  - exists (Some StdoutHandler). vm_compute. reflexivity.
  - exists child, σ1, σ2. split; [exact HN|]. split; [exact HS|].
    apply Hw. unfold LvlCrit, LvlDebug. simpl. lia.
Defined.

(** ** Panics and the package facade *)

(** X17. On any logger that lets [LvlCrit] through and has a sink
    installed, [Panic] and [Panicf] deliver one [LvlCrit] record, sleep for
    [time.Sleep(10)] and panic with the very string that is the record's
    message; the package-level [Panic] and [Panicf] do the same on the root
    logger without the sleep. *)
Theorem X17_panic_message_is_record_message (rt : MapRange)
    (Sprint : value → string) (Sprintf : string → list value → string)
    (fuel : nat) (σ : state) (l : nat) (lg : logger) (s : string) (msg : value)
    (ctx' : list value) (format : string) (args : list value) (f : string)
    (rest : list string) :
  loggers σ !! l = Some lg →
  swaps σ !! h lg = Some (Some (Sink s)) →
  (0 < fuel)%nat →
  0 ≤ maxLvl lg →
  let R m c := {| r_Time := now σ; r_Lvl := LvlCrit; r_Msg := m;
                  r_Ctx := ctx lg ++ c; r_Call := Some f;
                  r_KeyNames := keyNames |} in
  let stk := f :: rest in
  (fst (logger_Panic rt Sprint fuel l msg ctx' stk σ) = Panicked (Sprint msg) ∧
   trace (snd (logger_Panic rt Sprint fuel l msg ctx' stk σ)) =
     trace σ ++ [Delivered s (R (Sprint msg) (normalize rt ctx')); Slept 10]) ∧
  (fst (logger_Panicf rt Sprintf fuel l format args stk σ) =
     Panicked (Sprintf format args) ∧
   trace (snd (logger_Panicf rt Sprintf fuel l format args stk σ)) =
     trace σ ++ [Delivered s (R (Sprintf format args) []); Slept 10]) ∧
  (root σ = Some l →
   (fst (Panic rt Sprint fuel msg ctx' stk σ) = Panicked (Sprint msg) ∧
    trace (snd (Panic rt Sprint fuel msg ctx' stk σ)) =
      trace σ ++ [Delivered s (R (Sprint msg) (normalize rt ctx'))]) ∧
   (fst (Panicf rt Sprintf fuel format args stk σ) =
      Panicked (Sprintf format args) ∧
    trace (snd (Panicf rt Sprintf fuel format args stk σ)) =
      trace σ ++ [Delivered s (R (Sprintf format args) [])])).
Proof.
  intros Hl Hs Hf Hmax R stk. subst R stk.
  assert (Hw : ∀ text c entry,
            logger_write rt fuel l text LvlCrit c (entry :: f :: rest) σ =
              emit [Delivered s
                      {| r_Time := now σ; r_Lvl := LvlCrit; r_Msg := text;
                         r_Ctx := ctx lg ++ normalize rt c; r_Call := Some f;
                         r_KeyNames := keyNames |}] σ).
  { intros text c entry.
    rewrite (write_to_sink rt fuel σ l lg s) by (auto; unfold LvlCrit; lia).
    unfold record_of. by rewrite newContext_app. }
  unfold logger_Panic, logger_Panicf, Panic, Panicf, bind, get_root.
  rewrite !Hw. simpl. change (normalize rt []) with (@nil value).
  split; [by rewrite <- app_assoc|]. split; [by rewrite <- app_assoc|].
  intros ->. rewrite !Hw. simpl. by change (normalize rt []) with (@nil value).
Qed.

Lemma X17_panic_message_is_record_message_witness :
  fst (Panicf listing_range (fun fm _ => fm) 1 "lost %v"
         [VString "db"] ["main.main"] (boot 0)) = Panicked "lost %v" ∧
  trace (snd (Panicf listing_range (fun fm _ => fm) 1 "lost %v"
                [VString "db"] ["main.main"] (boot 0))) =
    trace (boot 0) ++
      [Delivered "stdout"
         {| r_Time := now (boot 0); r_Lvl := LvlCrit; r_Msg := "lost %v";
            r_Ctx := [] ++ []; r_Call := Some "main.main";
            r_KeyNames := keyNames |}].
Proof.
  assert (Hl : loggers (boot 0) !! 0%nat =
                 Some {| maxLvl := LvlDebug; ctx := []; h := 0%nat |})
    by (vm_compute; reflexivity).
  assert (Hs : swaps (boot 0) !! 0%nat = Some (Some (Sink "stdout")))
    by (vm_compute; reflexivity).
  assert (Hf : (0 < 1)%nat) by lia.
  assert (Hmax : 0 ≤ LvlDebug) by (unfold LvlDebug; lia).
  assert (Hr : root (boot 0) = Some 0%nat) by (vm_compute; reflexivity).
  exact (proj2 (proj2 (proj2
           (X17_panic_message_is_record_message listing_range (fun _ => "")
              (fun fm _ => fm) 1 (boot 0) 0%nat _ "stdout" VNil [] "lost %v"
              [VString "db"] "main.main" [] Hl Hs Hf Hmax)) Hr)).
Defined.

Lemma root_write_trace (rt : MapRange) (fuel : nat) (t0 : Z) (msg : string)
    (lvl : Lvl) (ctx' : list value) (entry f : string) (rest : list string) :
  (0 < fuel)%nat → 0 ≤ lvl ≤ 4 →
  trace (snd (bind get_root
                (fun r => logger_write rt fuel r msg lvl ctx' (entry :: f :: rest))
                (boot t0))) =
    [Delivered "stdout"
       {| r_Time := t0; r_Lvl := lvl; r_Msg := msg; r_Ctx := normalize rt ctx';
          r_Call := Some f; r_KeyNames := keyNames |}].
Proof.
  intros Hf Hlvl. unfold bind, get_root. rewrite boot_eq. simpl.
  rewrite (write_to_sink_trace rt fuel _ 0%nat
             {| maxLvl := LvlDebug; ctx := []; h := 0%nat |} "stdout");
    [done | apply lookup_singleton_eq | apply lookup_singleton_eq | done
    | simpl; unfold LvlDebug; lia].
Qed.

(** X18. [init] leaves a root logger that filters nothing and writes to
    standard output with an empty context: after it, each package-level
    function delivers exactly one record to ["stdout"], at its own level,
    whose context is just the normalised arguments (none for the formatted
    variants). *)
Theorem X18_init_root_logs_everything_to_stdout (rt : MapRange)
    (Sprintf : string → list value → string) (fuel : nat) (t0 : Z)
    (msg : string) (ctx' : list value) (format : string) (args : list value)
    (f : string) (rest : list string) :
  (0 < fuel)%nat →
  let R lvl m c := {| r_Time := t0; r_Lvl := lvl; r_Msg := m; r_Ctx := c;
                      r_Call := Some f; r_KeyNames := keyNames |} in
  let out (m : M unit) := trace (snd (m (boot t0))) in
  let stk := f :: rest in
  (out (Debug rt fuel msg ctx' stk) =
     [Delivered "stdout" (R LvlDebug msg (normalize rt ctx'))] ∧
   out (Info rt fuel msg ctx' stk) =
     [Delivered "stdout" (R LvlInfo msg (normalize rt ctx'))] ∧
   out (Warn rt fuel msg ctx' stk) =
     [Delivered "stdout" (R LvlWarn msg (normalize rt ctx'))] ∧
   out (Error rt fuel msg ctx' stk) =
     [Delivered "stdout" (R LvlError msg (normalize rt ctx'))] ∧
   out (Crit rt fuel msg ctx' stk) =
     [Delivered "stdout" (R LvlCrit msg (normalize rt ctx'))]) ∧
  (out (Debugf rt Sprintf fuel format args stk) =
     [Delivered "stdout" (R LvlDebug (Sprintf format args) [])] ∧
   out (Infof rt Sprintf fuel format args stk) =
     [Delivered "stdout" (R LvlInfo (Sprintf format args) [])] ∧
   out (Warnf rt Sprintf fuel format args stk) =
     [Delivered "stdout" (R LvlWarn (Sprintf format args) [])] ∧
   out (Errorf rt Sprintf fuel format args stk) =
     [Delivered "stdout" (R LvlError (Sprintf format args) [])] ∧
   out (Critf rt Sprintf fuel format args stk) =
     [Delivered "stdout" (R LvlCrit (Sprintf format args) [])]).
Proof.
  intros Hf R out stk. subst R out stk.
  unfold Debug, Info, Warn, Error, Crit, Debugf, Infof, Warnf, Errorf, Critf.
  repeat split;
    rewrite root_write_trace
      by (auto; unfold LvlDebug, LvlInfo, LvlWarn, LvlError, LvlCrit; lia);
    reflexivity.
Qed.

Lemma X18_init_root_logs_everything_to_stdout_witness :
  trace (snd (Error listing_range 1 "no route" [VString "host"]
                ["main.main"] (boot 9))) =
    [Delivered "stdout"
       {| r_Time := 9; r_Lvl := LvlError; r_Msg := "no route";
          r_Ctx := normalize listing_range [VString "host"];
          r_Call := Some "main.main"; r_KeyNames := keyNames |}].
Proof.
  assert (Hf : (0 < 1)%nat) by lia.
  exact (proj1 (proj2 (proj2 (proj2 (proj1
           (X18_init_root_logs_everything_to_stdout listing_range (fun fm _ => fm)
              1 9 "no route" [VString "host"] "" [] "main.main" [] Hf)))))).
Defined.
